(** * Remix: the Architect (API Gateway) adapter and the cookie codec

    A shallow embedding of two modules of the Remix repository:

    - the Architect server adapter ([createRemixRequest],
      [createRemixHeaders], [sendRemixResponse]), which translates between
      API Gateway v2 events/results and fetch-style requests/responses;
    - the cookie codec of the server runtime ([createCookieFactory],
      [encodeCookieValue], [decodeCookieValue], [encodeData], [decodeData]).

    JavaScript strings are sequences of UTF-16 code units and are modelled as
    [list N]; a function that may raise returns a [result].  The host
    platform and the third-party packages the two modules call ([JSON], the
    [cookie] package, [URL], [Buffer]) are fields of a [Runtime] record, so
    that every theorem holds for any implementation of them; the WHATWG
    [btoa]/[atob] pair is implemented and verified here. *)

From Stdlib Require Import ZArith NArith Lia ZifyNat ZifyN Ascii String DecimalString.
From stdpp Require Import gmap strings list sorting.

Local Open Scope N_scope.
Local Set Warnings "-register-all".

(** ** JavaScript strings and exceptions *)

(** A JavaScript string: its UTF-16 code units. *)
Abbreviation jsstring := (list N).

(** The code units of an ASCII literal. *)
Definition js (s : string) : jsstring :=
  map N_of_ascii (list_ascii_of_string s).
Arguments js : simpl never.

(** The exceptions the modelled code can meet. *)
Inductive exn : Set :=
  | InvalidCharacterError   (* btoa / atob *)
  | SyntaxError             (* JSON.parse *)
  | TypeError               (* cookie.serialize, new URL, unsign *)
  | URIError.               (* encodeURIComponent / decodeURIComponent *)

(** The outcome of a call that may raise. *)
Inductive result (A : Type) : Type :=
  | Ok (a : A)
  | Throw (e : exn).
Arguments Ok {A} a.
Arguments Throw {A} e.

Definition bind {A B} (r : result A) (k : A → result B) : result B :=
  match r with
  | Ok a => k a
  | Throw e => Throw e
  end.

Notation "'let!' x ':=' r 'in' k" := (bind r (fun x => k))
  (at level 10, x name, r at level 100, k at level 200).

(** [try { r } catch { h }] *)
Definition try_catch {A} (r : result A) (h : A) : A :=
  match r with
  | Ok a => a
  | Throw _ => h
  end.

(** ** Base64 (RFC 4648) and the WHATWG [btoa] / [atob] globals *)

Module Base64.

(** The character of a sextet in the alphabet [A-Za-z0-9+/]. *)
Definition b64_char (n : N) : N :=
  if n <? 26 then 65 + n
  else if n <? 52 then 71 + n
  else if n <? 62 then n - 4
  else if n =? 62 then 43
  else 47.

(** The sextet of an alphabet character; [None] outside the alphabet. *)
Definition b64_index (c : N) : option N :=
  if (65 <=? c) && (c <=? 90) then Some (c - 65)
  else if (97 <=? c) && (c <=? 122) then Some (c - 71)
  else if (48 <=? c) && (c <=? 57) then Some (c + 4)
  else if c =? 43 then Some 62
  else if c =? 47 then Some 63
  else None.

(** The padding character [=]. *)
Definition pad : N := 61.

(** Three octets become four sextets; a final group of one or two octets
    becomes two or three sextets, the missing bits being zero. *)
Fixpoint to_sextets (bs : list N) : list N :=
  match bs with
  | a :: b :: c :: rest =>
      a / 4 :: (a mod 4) * 16 + b / 16 :: (b mod 16) * 4 + c / 64
        :: c mod 64 :: to_sextets rest
  | [a; b] => [a / 4; (a mod 4) * 16 + b / 16; (b mod 16) * 4]
  | [a] => [a / 4; (a mod 4) * 16]
  | [] => []
  end.

(** Four sextets become three octets; two or three trailing sextets
    become one or two octets, the left-over bits being dropped. *)
Fixpoint of_sextets (sx : list N) : list N :=
  match sx with
  | s1 :: s2 :: s3 :: s4 :: rest =>
      s1 * 4 + s2 / 16 :: (s2 mod 16) * 16 + s3 / 4 :: (s3 mod 4) * 64 + s4
        :: of_sextets rest
  | [s1; s2; s3] => [s1 * 4 + s2 / 16; (s2 mod 16) * 16 + s3 / 4]
  | [s1; s2] => [s1 * 4 + s2 / 16]
  | _ => []
  end.

(** The number of [=] that completes [n] sextets to a multiple of four. *)
Definition padding (n : nat) : list N :=
  repeat pad ((4 - n mod 4) mod 4)%nat.

(** Base64 of a sequence of octets. *)
Definition encode (bs : list N) : list N :=
  let sx := to_sextets bs in
  map b64_char sx ++ padding (length sx).

(** ASCII whitespace: TAB, LF, FF, CR, SPACE. *)
Definition is_ascii_whitespace (c : N) : bool :=
  (c =? 9) || (c =? 10) || (c =? 12) || (c =? 13) || (c =? 32).

(** Removes one or two trailing [=]. *)
Definition strip_padding (d : list N) : list N :=
  match rev d with
  | p1 :: p2 :: r =>
      if p1 =? pad then if p2 =? pad then rev r else rev (p2 :: r) else d
  | [p1] => if p1 =? pad then [] else d
  | [] => d
  end.

(** The forgiving-base64 decode of the WHATWG Infra standard; [None] is
    failure. *)
Definition forgiving_decode (s : list N) : option (list N) :=
  let d := filter (λ c, is_ascii_whitespace c = false) s in
  let d := if (length d mod 4 =? 0)%nat then strip_padding d else d in
  if (length d mod 4 =? 1)%nat then None
  else of_sextets <$> mapM b64_index d.

(** [btoa]: raises on a code unit above U+00FF, else encodes the code
    units as octets. *)
Definition btoa (s : jsstring) : result jsstring :=
  if forallb (λ c, c <=? 255) s then Ok (encode s)
  else Throw InvalidCharacterError.

(** [atob]: forgiving-base64 decode, the octets returned as code units. *)
Definition atob (s : jsstring) : result jsstring :=
  match forgiving_decode s with
  | Some bs => Ok bs
  | None => Throw InvalidCharacterError
  end.

(** [Buffer.from(bytes).toString("base64")]. *)
Definition encode_bytes (bs : list Byte.byte) : jsstring :=
  encode (map Byte.to_N bs).

(** Strict decoding of a base64 string to octets. *)
Definition decode_bytes (s : jsstring) : option (list Byte.byte) :=
  forgiving_decode s ≫= mapM Byte.of_N.

End Base64.

(** ** JavaScript values, option objects and the runtime *)

(** The values the cookie codec carries (the type [any] of the source):
    the JSON values.  Numbers are the integers; an object keeps its
    properties in insertion order. *)
Inductive any : Type :=
  | VNull
  | VBool (b : bool)
  | VNumber (n : Z)
  | VString (s : jsstring)
  | VArray (elements : list any)
  | VObject (properties : list (jsstring * any)).

(** [v === ""] *)
Definition is_empty_string (v : any) : bool :=
  match v with
  | VString [] => true
  | _ => false
  end.

(** The value of a property of an option object. *)
Inductive optval : Type :=
  | OString (s : jsstring)
  | ONumber (n : Z)
  | OBool (b : bool)
  | OStrings (l : list jsstring).

(** An option object ([CookieOptions], [CookieParseOptions],
    [CookieSerializeOptions]): property name to value. *)
Abbreviation options := (gmap string optval).

(** [{...a, ...b}]: the properties of [b] win. *)
Definition spread (a b : options) : options := b ∪ a.

(** The platform globals and the third-party packages the code calls.
    Their sources are not part of the repository; the code is verified
    against any implementation of them. *)
Class Runtime : Type := {
  (** [JSON.stringify(v)] *)
  JSON_stringify : any → jsstring;
  (** [JSON.parse(s)] *)
  JSON_parse : jsstring → result any;
  (** the global [btoa] *)
  btoa : jsstring → result jsstring;
  (** the global [atob] *)
  atob : jsstring → result jsstring;
  (** [parse(str, options)] of the [cookie] package: the name→raw value
      mapping of a [Cookie] header *)
  cookie_parse : jsstring → options → gmap jsstring jsstring;
  (** [serialize(name, val, options)] of the [cookie] package: a
      [Set-Cookie] header *)
  cookie_serialize : jsstring → jsstring → options → result jsstring;
  (** [new URL(input, base).href] *)
  URL_href : jsstring → jsstring → result jsstring;
  (** [Buffer.from(s, "base64")] *)
  Buffer_from_base64 : jsstring → list Byte.byte;
  (** [buffer.toString()], the UTF-8 decoding of the octets; also the
      decoding [response.text()] applies *)
  Buffer_toString : list Byte.byte → jsstring;
  (** the allow-list of [./binaryTypes], as the test whether a content
      type matches one of its entries *)
  inBinaryTypes : jsstring → bool;
}.

(** ** The [Headers] class of the fetch implementation *)

Module Headers.

(** [String.prototype.toLowerCase] on header names, which are ASCII
    tokens: [A-Z] become [a-z]. *)
Definition toLowerCase (s : jsstring) : jsstring :=
  map (λ c, if (65 <=? c) && (c <=? 90) then c + 32 else c) s.
Arguments toLowerCase : simpl never.

(** The map behind a [Headers] object, as [raw()] returns it: each name,
    spelled as first added, with the values added under it, in insertion
    order. *)
Definition t : Type := list (jsstring * list jsstring).

Definition empty : t := [].

(** The key of the map that matches [name] case-insensitively. *)
Fixpoint find (map : t) (name : jsstring) : option jsstring :=
  match map with
  | [] => None
  | (key, _) :: rest =>
      if decide (toLowerCase key = toLowerCase name) then Some key
      else find rest name
  end.

(** [map[key]] *)
Fixpoint values_of (map : t) (key : jsstring) : list jsstring :=
  match map with
  | [] => []
  | (k, vs) :: rest => if decide (k = key) then vs else values_of rest key
  end.

(** [map[key] = f(map[key])] for a key of the map. *)
Fixpoint update (map : t) (key : jsstring)
    (f : list jsstring → list jsstring) : t :=
  match map with
  | [] => []
  | (k, vs) :: rest =>
      if decide (k = key) then (k, f vs) :: rest
      else (k, vs) :: update rest key f
  end.

(** [delete map[key]] *)
Fixpoint remove (map : t) (key : jsstring) : t :=
  match map with
  | [] => []
  | (k, vs) :: rest =>
      if decide (k = key) then rest else (k, vs) :: remove rest key
  end.

(** [array.join(sep)] *)
Fixpoint join (sep : jsstring) (l : list jsstring) : jsstring :=
  match l with
  | [] => []
  | [x] => x
  | x :: rest => x ++ sep ++ join sep rest
  end.

(** [validateName]: a header name is legal when it is not empty and has
    no code unit outside the token set
    [^_`a-zA-Z-0-9!#$%&'*+.|~]. *)
Definition is_token_unit (c : N) : bool :=
  ((97 <=? c) && (c <=? 122)) || ((65 <=? c) && (c <=? 90))
  || ((48 <=? c) && (c <=? 57))
  || bool_decide (c ∈ [94; 95; 96; 45; 33; 35; 36; 37; 38; 39; 42; 43; 46;
                       124; 126]).

Definition valid_name (name : jsstring) : bool :=
  forallb is_token_unit name && negb (bool_decide (name = [])).

(** [validateValue]: a header value is legal when it has no code unit
    outside TAB, [0x20]-[0x7e] and [0x80]-[0xff]. *)
Definition valid_value (value : jsstring) : bool :=
  forallb (λ c, (c =? 9) || ((32 <=? c) && (c <=? 126))
                || ((128 <=? c) && (c <=? 255))) value.

(** [headers.append(name, value)] for a legal name and value, on which
    [validateName] and [validateValue] return; on any other the method
    raises a [TypeError] and the map is left as it is. *)
Definition append (name value : jsstring) (h : t) : t :=
  match find h name with
  | Some key => update h key (λ vs, vs ++ [value])
  | None => h ++ [(name, [value])]
  end.

Definition set (name value : jsstring) (h : t) : t :=
  match find h name with
  | Some key => update h key (λ _, [value])
  | None => h ++ [(name, [value])]
  end.

Definition delete (name : jsstring) (h : t) : t :=
  match find h name with
  | Some key => remove h key
  | None => h
  end.

(** [headers.get(name)]; [None] is [null]. *)
Definition get (name : jsstring) (h : t) : option jsstring :=
  match find h name with
  | Some key => Some (join (js ", ") (values_of h key))
  | None => None
  end.

Definition raw (h : t) : list (jsstring * list jsstring) := h.

(** The values carried under [name], matched case-insensitively. *)
Definition get_all (name : jsstring) (h : t) : list jsstring :=
  match find h name with
  | Some key => values_of h key
  | None => []
  end.

(** Code-unit order, the order of [Array.prototype.sort]. *)
Fixpoint str_leb (a b : jsstring) : bool :=
  match a, b with
  | [], _ => true
  | _ :: _, [] => false
  | x :: a', y :: b' => (x <? y) || ((x =? y) && str_leb a' b')
  end.

(** The iteration of a [Headers] object: the keys sorted, each
    lower-cased and paired with its values joined by [", "]. *)
Definition entries (h : t) : list (jsstring * jsstring) :=
  map (λ k, (toLowerCase k, join (js ", ") (values_of h k)))
      (merge_sort (λ a b, str_leb a b) (map fst h)).

(** The invariant of the class: no two keys are equal up to case, and
    no key has an empty list of values. *)
Definition wf (h : t) : Prop :=
  NoDup (map (λ kv, toLowerCase kv.1) h) ∧ Forall (λ kv, kv.2 ≠ []) h.

End Headers.

(** [Object.fromEntries(entries)]: a later entry replaces an earlier one
    of the same key. *)
Definition Object_fromEntries (entries : list (jsstring * jsstring))
    : gmap jsstring jsstring :=
  foldl (λ m kv, <[kv.1 := kv.2]> m) ∅ entries.

(** ** The Architect adapter *)

(** The fields of an [APIGatewayProxyEventV2] the adapter reads.  A header
    of the event is a [string | undefined]; [cookies] and [body] may be
    missing. *)
Module Event.
Record t : Type := {
  rawPath : jsstring;
  rawQueryString : jsstring;
  headers : list (jsstring * option jsstring);
  cookies : option (list jsstring);
  method : jsstring;               (* requestContext.http.method *)
  body : option jsstring;
  isBase64Encoded : bool;
}.
End Event.

Record AbortController : Type := {
  aborted : bool;                    (* signal.aborted *)
}.

(** What [createRemixRequest] hands to the [Request] constructor. *)
Module Request.
Record t : Type := {
  url : jsstring;
  method : jsstring;
  headers : Headers.t;
  body : option jsstring;
  abortController : option AbortController;
  signal : option AbortController;
}.
End Request.

(** A response of the handler: status, headers and the octets of its body. *)
Module Response.
Record t : Type := {
  status : Z;
  headers : Headers.t;
  body : list Byte.byte;
}.
End Response.

(** An [APIGatewayProxyStructuredResultV2]. *)
Module GatewayResult.
Record t : Type := {
  statusCode : Z;
  headers : gmap jsstring jsstring;
  cookies : list jsstring;
  body : jsstring;
  isBase64Encoded : bool;
}.
End GatewayResult.

(** [object[name]] on the header object of an event; [None] is
    [undefined]. *)
Fixpoint header_property (headers : list (jsstring * option jsstring))
    (name : jsstring) : option jsstring :=
  match headers with
  | [] => None
  | (k, v) :: rest => if decide (k = name) then v else header_property rest name
  end.

(** Truthiness of a [string | undefined]. *)
Definition truthy (v : option jsstring) : bool :=
  match v with
  | Some (_ :: _) => true
  | _ => false
  end.

(** [a || b] on [string | undefined]. *)
Definition or_else (a b : option jsstring) : option jsstring :=
  if truthy a then a else b.

(** A [string | undefined] inside a template literal. *)
Definition template (v : option jsstring) : jsstring :=
  match v with
  | Some s => s
  | None => js "undefined"
  end.

Section Adapter.
Context `{Runtime}.

(** Modelled from the spec: [isBinaryType] of [./binaryTypes], whose
    source is missing.  A content type is binary when it matches the
    allow-list of binary types; a missing one is not. *)
Definition isBinaryType (contentType : option jsstring) : bool :=
  match contentType with
  | Some contentType => inBinaryTypes contentType
  | None => false
  end.

(** The calls of [headers.append] in [createRemixHeaders] all return:
    every header with a truthy value has a legal name and value, and the
    joined cookies are a legal value. *)
Definition appends_accepted
    (requestHeaders : list (jsstring * option jsstring))
    (requestCookies : option (list jsstring)) : bool :=
  forallb (λ entry,
             match entry with
             | (header, Some (c :: v)) =>
                 Headers.valid_name header && Headers.valid_value (c :: v)
             | _ => true
             end) requestHeaders
  && match requestCookies with
     | Some requestCookies =>
         Headers.valid_value (Headers.join (js "; ") requestCookies)
     | None => true
     end.

(** The headers [createRemixHeaders] returns when [appends_accepted]; when
    not, the call of [append] that is refused raises its [TypeError] out of
    the function. *)
Definition createRemixHeaders
    (requestHeaders : list (jsstring * option jsstring))
    (requestCookies : option (list jsstring)) : Headers.t :=
  let headers :=
    foldl (λ headers entry,
             match entry with
             | (header, Some (c :: v)) => Headers.append header (c :: v) headers
             | _ => headers
             end)
          Headers.empty requestHeaders in
  match requestCookies with
  | Some requestCookies =>
      Headers.append (js "Cookie") (Headers.join (js "; ") requestCookies)
                     headers
  | None => headers
  end.

(** The host of the request URL. *)
Definition request_host (event : Event.t) : option jsstring :=
  or_else (header_property (Event.headers event) (js "x-forwarded-host"))
          (header_property (Event.headers event) (js "host")).

(** The path and query of the request URL. *)
Definition request_target (event : Event.t) : jsstring :=
  let search :=
    if (0 <? length (Event.rawQueryString event))%nat
    then js "?" ++ Event.rawQueryString event else [] in
  Event.rawPath event ++ search.

(** [createRemixRequest]: the URL and the options handed to
    [new NodeRequest], or the error of [new URL].  [Ok] stands for the
    request constructed from them; the [TypeError] of an [append] that is
    not accepted (see [appends_accepted]) and that of the constructor for a
    body under the method GET or HEAD have no counterpart here. *)
Definition createRemixRequest (event : Event.t)
    (abortController : option AbortController) : result Request.t :=
  let host := request_host event in
  let! href := URL_href (request_target event)
                        (js "https://" ++ template host) in
  Ok {| Request.url := href;
        Request.method := Event.method event;
        Request.headers :=
          createRemixHeaders (Event.headers event) (Event.cookies event);
        Request.body :=
          if truthy (Event.body event) && Event.isBase64Encoded event
          then Buffer_toString ∘ Buffer_from_base64 <$> Event.body event
          else Event.body event;
        Request.abortController := abortController;
        Request.signal := abortController |}.

(** [response.arrayBuffer()] and [response.text()]. *)
Definition arrayBuffer (response : Response.t) : list Byte.byte :=
  Response.body response.
Definition text (response : Response.t) : jsstring :=
  Buffer_toString (Response.body response).

(** The values collected by the loop over [headers.raw()]. *)
Definition collect_cookies (raw : list (jsstring * list jsstring))
    : list jsstring :=
  foldl (λ cookies entry,
           if decide (Headers.toLowerCase entry.1 = js "set-cookie")
           then foldl (λ cookies value, cookies ++ [value]) cookies entry.2
           else cookies)
        [] raw.

Definition sendRemixResponse (nodeResponse : Response.t)
    (abortController : AbortController) : GatewayResult.t :=
  let cookies := collect_cookies (Headers.raw (Response.headers nodeResponse)) in
  let headers := Response.headers nodeResponse in
  let headers :=
    if (0 <? length cookies)%nat
    then Headers.delete (js "Set-Cookie") headers else headers in
  let headers :=
    if aborted abortController
    then Headers.set (js "Connection") (js "close") headers else headers in
  let contentType := Headers.get (js "Content-Type") headers in
  let isBinary := isBinaryType contentType in
  let '(body, isBase64Encoded) :=
    if isBinary
    then (Base64.encode_bytes (arrayBuffer nodeResponse), true)
    else (text nodeResponse, false) in
  {| GatewayResult.statusCode := Response.status nodeResponse;
     GatewayResult.headers := Object_fromEntries (Headers.entries headers);
     GatewayResult.cookies := cookies;
     GatewayResult.body := body;
     GatewayResult.isBase64Encoded := isBase64Encoded |}.

End Adapter.

(** ** The cookie codec *)

(** [SignFunction]: [sign(value, secret)]. *)
Definition SignFunction : Type := jsstring → jsstring → jsstring.

(** [UnsignFunction]: [unsign(cookie, secret)]; [None] is [false]. *)
Definition UnsignFunction : Type := jsstring → jsstring → option jsstring.

(** The [Cookie] interface; [parse] and [serialize] are asynchronous: they
    resolve ([Ok]) or reject ([Throw]).  The [expires] getter reads the
    clock and computes a [Date] in floating point; it has no counterpart
    here. *)
Record Cookie : Type := {
  name : jsstring;
  isSigned : bool;
  parse : option jsstring → options → result any;
  serialize : any → options → result jsstring;
}.

(** [String(f)] for a built-in function [f]. *)
Definition native_function (name : string) : jsstring :=
  js "function " ++ js name ++ js "() { [native code] }".

(** [Object.prototype], which every plain object inherits from: its
    properties, each with the string its value converts to.  None of the
    values is a string. *)
Definition Object_prototype : gmap jsstring jsstring :=
  list_to_map
    [ (js "constructor", native_function "Object");
      (js "__defineGetter__", native_function "__defineGetter__");
      (js "__defineSetter__", native_function "__defineSetter__");
      (js "hasOwnProperty", native_function "hasOwnProperty");
      (js "__lookupGetter__", native_function "__lookupGetter__");
      (js "__lookupSetter__", native_function "__lookupSetter__");
      (js "isPrototypeOf", native_function "isPrototypeOf");
      (js "propertyIsEnumerable", native_function "propertyIsEnumerable");
      (js "toString", native_function "toString");
      (js "valueOf", native_function "valueOf");
      (js "__proto__", js "[object Object]");
      (js "toLocaleString", native_function "toLocaleString") ].

Section Cookies.
Context `{Runtime}.

Definition encodeData (value : any) : result jsstring :=
  btoa (JSON_stringify value).

Definition decodeData (value : jsstring) : any :=
  try_catch (let! text := atob value in JSON_parse text) (VObject []).

Definition encodeCookieValue (sign : SignFunction) (value : any)
    (secrets : list jsstring) : result jsstring :=
  let! encoded := encodeData value in
  match secrets with
  | secret :: _ => Ok (sign encoded secret)
  | [] => Ok encoded
  end.

(** The loop [for (let secret of secrets)] of [decodeCookieValue]. *)
Fixpoint unsign_loop (unsign : UnsignFunction) (value : jsstring)
    (secrets : list jsstring) : result any :=
  match secrets with
  | [] => Ok VNull
  | secret :: secrets =>
      match unsign value secret with
      | Some unsignedValue => Ok (decodeData unsignedValue)
      | None => unsign_loop unsign value secrets
      end
  end.

Definition decodeCookieValue (unsign : UnsignFunction) (value : jsstring)
    (secrets : list jsstring) : result any :=
  if (0 <? length secrets)%nat then unsign_loop unsign value secrets
  else Ok (decodeData value).

(** [decodeCookieValue] on a value that is not a string but a property of
    [Object.prototype], of string [text].  With secrets the value goes to
    [unsign], which is written for strings and raises a [TypeError] on
    it; without, [atob] converts it to [text]. *)
Definition decodeInheritedValue (text : jsstring) (secrets : list jsstring)
    : result any :=
  if (0 <? length secrets)%nat then Throw TypeError
  else Ok (decodeData text).

(** The decoding rule of the specification for a signed cookie: the
    secrets are tried in list order, and the value unsigned under the
    first secret that verifies it is decoded; [null] if none verifies. *)
Definition first_verified (unsign : UnsignFunction) (value : jsstring)
    (secrets : list jsstring) : any :=
  default VNull
    (head (omap (λ secret, decodeData <$> unsign value secret) secrets)).

(** [{ secrets: [], path: "/", ...cookieOptions }] *)
Definition with_defaults (cookieOptions : options) : options :=
  spread {[ "secrets"%string := OStrings [];
            "path"%string := OString (js "/") ]}
         cookieOptions.

(** The [secrets] the factory takes out of the options. *)
Definition secrets_of (cookieOptions : options) : list jsstring :=
  match with_defaults cookieOptions !! "secrets"%string with
  | Some (OStrings secrets) => secrets
  | _ => []
  end.

(** The rest of the options, [...options]. *)
Definition options_of (cookieOptions : options) : options :=
  delete "secrets"%string (with_defaults cookieOptions).

Definition createCookieFactory (sign : SignFunction) (unsign : UnsignFunction)
    (name : jsstring) (cookieOptions : options) : Cookie :=
  let secrets := secrets_of cookieOptions in
  let options := options_of cookieOptions in
  {| name := name;
     isSigned := (0 <? length secrets)%nat;
     parse cookieHeader parseOptions :=
       match cookieHeader with
       | None | Some [] => Ok VNull
       | Some cookieHeader =>
           let cookies :=
             cookie_parse cookieHeader (spread options parseOptions) in
           match cookies !! name with
           | Some [] => Ok (VString [])
           | Some raw => decodeCookieValue unsign raw secrets
           | None =>
               (* [name in cookies] also finds what [cookies], a plain
                  object, inherits *)
               match Object_prototype !! name with
               | Some text => decodeInheritedValue text secrets
               | None => Ok VNull
               end
           end
       end;
     serialize value serializeOptions :=
       let! encoded :=
         if is_empty_string value then Ok []
         else encodeCookieValue sign value secrets in
       cookie_serialize name encoded (spread options serializeOptions) |}.

End Cookies.

(** A runtime with the WHATWG [btoa] and [atob] for its base64 globals. *)
Definition with_whatwg_base64 (R : Runtime) : Runtime :=
  Build_Runtime JSON_stringify JSON_parse Base64.btoa Base64.atob
                cookie_parse cookie_serialize URL_href
                Buffer_from_base64 Buffer_toString inBinaryTypes.

(** ** A reference runtime

    An executable runtime, to run the adapter and the codec on concrete
    inputs.  [btoa] and [atob] are the WHATWG pair above.  The other
    functions implement a fragment of the platform functions they stand
    for, described at each of them; the theorems that hold for every
    runtime do not depend on this one. *)

Module Reference.

(** *** [JSON] *)

Definition hex_digit (n : N) : N := if n <? 10 then 48 + n else 87 + n.

Definition is_high_surrogate (c : N) : bool := (55296 <=? c) && (c <=? 56319).
Definition is_low_surrogate (c : N) : bool := (56320 <=? c) && (c <=? 57343).

(** A [\uXXXX] escape. *)
Definition unicode_escape (c : N) : jsstring :=
  [92; 117] ++ map hex_digit [c / 4096; (c / 256) mod 16; (c / 16) mod 16; c mod 16].

(** [QuoteJSONString] without the enclosing quotes: the quote, the
    backslash, the control characters and the lone surrogates are
    escaped. *)
Fixpoint quote_body (s : jsstring) : jsstring :=
  match s with
  | [] => []
  | c :: rest =>
      if c =? 8 then [92; 98] ++ quote_body rest
      else if c =? 9 then [92; 116] ++ quote_body rest
      else if c =? 10 then [92; 110] ++ quote_body rest
      else if c =? 12 then [92; 102] ++ quote_body rest
      else if c =? 13 then [92; 114] ++ quote_body rest
      else if c =? 34 then [92; 34] ++ quote_body rest
      else if c =? 92 then [92; 92] ++ quote_body rest
      else if c <? 32 then unicode_escape c ++ quote_body rest
      else if is_high_surrogate c then
        match rest with
        | d :: rest' =>
            if is_low_surrogate d then c :: d :: quote_body rest'
            else unicode_escape c ++ quote_body rest
        | [] => unicode_escape c
        end
      else if is_low_surrogate c then unicode_escape c ++ quote_body rest
      else c :: quote_body rest
  end.

Definition quote (s : jsstring) : jsstring := [34] ++ quote_body s ++ [34].

(** The decimal numeral of an integer. *)
Definition decimal (n : Z) : jsstring :=
  js (NilZero.string_of_int (Z.to_int n)).

(** [JSON.stringify] on JSON values. *)
Fixpoint JSON_stringify (v : any) : jsstring :=
  match v with
  | VNull => js "null"
  | VBool true => js "true"
  | VBool false => js "false"
  | VNumber n => decimal n
  | VString s => quote s
  | VArray l => js "[" ++ Headers.join (js ",") (map JSON_stringify l) ++ js "]"
  | VObject l =>
      js "{"
      ++ Headers.join (js ",")
           (map (λ kv, quote kv.1 ++ js ":" ++ JSON_stringify kv.2) l)
      ++ js "}"
  end.

Definition is_json_whitespace (c : N) : bool :=
  (c =? 32) || (c =? 9) || (c =? 10) || (c =? 13).

Fixpoint skip_whitespace (s : jsstring) : jsstring :=
  match s with
  | c :: rest => if is_json_whitespace c then skip_whitespace rest else s
  | [] => []
  end.

Definition hex_value (c : N) : option N :=
  if (48 <=? c) && (c <=? 57) then Some (c - 48)
  else if (97 <=? c) && (c <=? 102) then Some (c - 87)
  else if (65 <=? c) && (c <=? 70) then Some (c - 55)
  else None.

(** The character a one-letter escape stands for. *)
Definition simple_escape (e : N) : option N :=
  if e =? 34 then Some 34 else if e =? 92 then Some 92
  else if e =? 47 then Some 47 else if e =? 98 then Some 8
  else if e =? 102 then Some 12 else if e =? 110 then Some 10
  else if e =? 114 then Some 13 else if e =? 116 then Some 9
  else None.

(** The characters of a string literal after its opening quote, and what
    follows the closing quote. *)
Fixpoint parse_chars (s : jsstring) : option (jsstring * jsstring) :=
  match s with
  | [] => None
  | c :: r =>
      if c =? 34 then Some ([], r)
      else if c <? 32 then None
      else if c =? 92 then
        match r with
        | e :: r' =>
            if e =? 117 then
              match r' with
              | h1 :: h2 :: h3 :: h4 :: r'' =>
                  a ← hex_value h1; b ← hex_value h2;
                  c' ← hex_value h3; d ← hex_value h4;
                  '(str, rest) ← parse_chars r'';
                  Some (a * 4096 + b * 256 + c' * 16 + d :: str, rest)
              | _ => None
              end
            else
              x ← simple_escape e;
              '(str, rest) ← parse_chars r';
              Some (x :: str, rest)
        | [] => None
        end
      else '(str, rest) ← parse_chars r; Some (c :: str, rest)
  end.

Definition is_digit (c : N) : bool := (48 <=? c) && (c <=? 57).

Fixpoint take_digits (s : jsstring) : jsstring * jsstring :=
  match s with
  | c :: r =>
      if is_digit c then let '(d, rest) := take_digits r in (c :: d, rest)
      else ([], s)
  | [] => ([], [])
  end.

Definition digits_value (d : jsstring) : Z :=
  foldl (λ acc c, acc * 10 + Z.of_N (c - 48))%Z 0%Z d.

(** An integer literal.  A literal with a fraction or an exponent is
    outside the number fragment of this runtime and is rejected. *)
Definition parse_number (s : jsstring) : option (Z * jsstring) :=
  let '(negative, s) :=
    match s with
    | c :: r => if c =? 45 then (true, r) else (false, s)
    | [] => (false, s)
    end in
  let '(d, rest) := take_digits s in
  match d with
  | [] => None
  | c :: d' =>
      if (c =? 48) && (0 <? length d')%nat then None
      else
        let n := digits_value d in
        let n := if negative then (- n)%Z else n in
        match rest with
        | x :: _ =>
            if (x =? 46) || (x =? 101) || (x =? 69) then None
            else Some (n, rest)
        | [] => Some (n, rest)
        end
  end.

Fixpoint strip_prefix (p s : jsstring) : option jsstring :=
  match p, s with
  | [], _ => Some s
  | x :: p', y :: s' => if x =? y then strip_prefix p' s' else None
  | _ :: _, [] => None
  end.

(** [object[key] = v] on a property list. *)
Fixpoint set_property (l : list (jsstring * any)) (key : jsstring) (v : any)
    : list (jsstring * any) :=
  match l with
  | [] => [(key, v)]
  | (k, w) :: rest =>
      if decide (k = key) then (k, v) :: rest
      else (k, w) :: set_property rest key v
  end.

(** A JSON value at the head of [s], and what follows it. *)
Fixpoint parse_value (fuel : nat) (s : jsstring) {struct fuel}
    : option (any * jsstring) :=
  match fuel with
  | O => None
  | S fuel =>
      match skip_whitespace s with
      | [] => None
      | c :: r =>
          if c =? 34 then
            '(str, rest) ← parse_chars r; Some (VString str, rest)
          else if c =? 91 then
            match skip_whitespace r with
            | d :: rest =>
                if d =? 93 then Some (VArray [], rest)
                else '(l, rest) ← parse_elements fuel r; Some (VArray l, rest)
            | [] => None
            end
          else if c =? 123 then
            match skip_whitespace r with
            | d :: rest =>
                if d =? 125 then Some (VObject [], rest)
                else
                  '(l, rest) ← parse_members fuel r;
                  Some (VObject (foldl (λ o kv, set_property o kv.1 kv.2) [] l),
                        rest)
            | [] => None
            end
          else if c =? 110 then
            rest ← strip_prefix (js "ull") r; Some (VNull, rest)
          else if c =? 116 then
            rest ← strip_prefix (js "rue") r; Some (VBool true, rest)
          else if c =? 102 then
            rest ← strip_prefix (js "alse") r; Some (VBool false, rest)
          else
            '(n, rest) ← parse_number (c :: r); Some (VNumber n, rest)
      end
  end
with parse_elements (fuel : nat) (s : jsstring) {struct fuel}
    : option (list any * jsstring) :=
  match fuel with
  | O => None
  | S fuel =>
      '(v, rest) ← parse_value fuel s;
      match skip_whitespace rest with
      | c :: rest =>
          if c =? 44 then
            '(l, rest) ← parse_elements fuel rest; Some (v :: l, rest)
          else if c =? 93 then Some ([v], rest)
          else None
      | [] => None
      end
  end
with parse_members (fuel : nat) (s : jsstring) {struct fuel}
    : option (list (jsstring * any) * jsstring) :=
  match fuel with
  | O => None
  | S fuel =>
      match skip_whitespace s with
      | q :: r =>
          if q =? 34 then
            '(key, rest) ← parse_chars r;
            match skip_whitespace rest with
            | colon :: rest =>
                if colon =? 58 then
                  '(v, rest) ← parse_value fuel rest;
                  match skip_whitespace rest with
                  | c :: rest =>
                      if c =? 44 then
                        '(l, rest) ← parse_members fuel rest;
                        Some ((key, v) :: l, rest)
                      else if c =? 125 then Some ([(key, v)], rest)
                      else None
                  | [] => None
                  end
                else None
            | [] => None
            end
          else None
      | [] => None
      end
  end.

(** [JSON.parse]: one value, surrounded by whitespace only. *)
Definition JSON_parse (s : jsstring) : result any :=
  match parse_value (2 * length s + 2) s with
  | Some (v, rest) =>
      match skip_whitespace rest with
      | [] => Ok v
      | _ :: _ => Throw SyntaxError
      end
  | None => Throw SyntaxError
  end.

(** *** The [cookie] package *)

Definition is_ascii_alnum (c : N) : bool :=
  is_digit c || ((65 <=? c) && (c <=? 90)) || ((97 <=? c) && (c <=? 122)).

(** The characters [encodeURIComponent] leaves alone. *)
Definition is_unreserved (c : N) : bool :=
  is_ascii_alnum c || bool_decide (c ∈ js "-_.!~*'()").

Definition upper_hex_digit (n : N) : N := if n <? 10 then 48 + n else 55 + n.

(** [encodeURIComponent] on ASCII strings.  A string with a code unit
    above U+007F is outside the fragment and is rejected. *)
Definition encodeURIComponent (s : jsstring) : result jsstring :=
  if forallb (λ c, c <? 128) s then
    Ok (flat_map (λ c, if is_unreserved c then [c]
                       else [37; upper_hex_digit (c / 16); upper_hex_digit (c mod 16)]) s)
  else Throw URIError.

(** [decodeURIComponent] on escapes of ASCII octets.  An escape of an
    octet above 0x7F is outside the fragment and is rejected. *)
Fixpoint decodeURIComponent (s : jsstring) : result jsstring :=
  match s with
  | [] => Ok []
  | c :: r =>
      if c =? 37 then
        match r with
        | h1 :: h2 :: r' =>
            match hex_value h1, hex_value h2 with
            | Some a, Some b =>
                if a * 16 + b <? 128 then
                  let! rest := decodeURIComponent r' in Ok (a * 16 + b :: rest)
                else Throw URIError
            | _, _ => Throw URIError
            end
        | _ => Throw URIError
        end
      else let! rest := decodeURIComponent r in Ok (c :: rest)
  end.

(** [fieldContentRegExp]: a non-empty string of TAB, U+0020..U+007E and
    U+0080..U+00FF. *)
Definition field_content (s : jsstring) : bool :=
  (0 <? length s)%nat
  && forallb (λ c, (c =? 9) || ((32 <=? c) && (c <=? 126))
                   || ((128 <=? c) && (c <=? 255))) s.

(** [str + "; Name=" + v] for a string attribute, validated. *)
Definition string_attribute (label : string) (v : option optval)
    (str : jsstring) : result jsstring :=
  match v with
  | Some (OString (c :: s)) =>
      if field_content (c :: s)
      then Ok (str ++ js "; " ++ js label ++ js "=" ++ c :: s)
      else Throw TypeError
  | _ => Ok str
  end.

Definition flag_attribute (label : string) (v : option optval)
    (str : jsstring) : jsstring :=
  match v with
  | Some (OBool true) => str ++ js "; " ++ js label
  | _ => str
  end.

(** [serialize(name, val, options)], with the attributes [maxAge],
    [domain], [path], [httpOnly], [secure] and [sameSite]; an [expires]
    property, which no [optval] can hold as a [Date], is rejected as the
    package rejects a value that is not a [Date]. *)
Definition cookie_serialize (name val : jsstring) (opt : options)
    : result jsstring :=
  if negb (field_content name) then Throw TypeError else
  let! value := encodeURIComponent val in
  if (0 <? length value)%nat && negb (field_content value)
  then Throw TypeError else
  let str := name ++ js "=" ++ value in
  let str :=
    match opt !! "maxAge"%string with
    | Some (ONumber n) => str ++ js "; Max-Age=" ++ decimal n
    | _ => str
    end in
  let! str := string_attribute "Domain" (opt !! "domain"%string) str in
  let! str := string_attribute "Path" (opt !! "path"%string) str in
  match opt !! "expires"%string with
  | Some _ => Throw TypeError
  | None =>
      let str := flag_attribute "HttpOnly" (opt !! "httpOnly"%string) str in
      let str := flag_attribute "Secure" (opt !! "secure"%string) str in
      match opt !! "sameSite"%string with
      | None | Some (OBool false) => Ok str
      | Some (OBool true) => Ok (str ++ js "; SameSite=Strict")
      | Some (OString v) =>
          if decide (v = js "lax") then Ok (str ++ js "; SameSite=Lax")
          else if decide (v = js "strict") then Ok (str ++ js "; SameSite=Strict")
          else if decide (v = js "none") then Ok (str ++ js "; SameSite=None")
          else Throw TypeError
      | Some _ => Throw TypeError
      end
  end.

(** [str.split(/; */)] *)
Fixpoint split_pairs (skipping : bool) (s : jsstring) : list jsstring :=
  match s with
  | [] => [[]]
  | c :: r =>
      if skipping && (c =? 32) then split_pairs true r
      else if c =? 59 then [] :: split_pairs true r
      else
        match split_pairs false r with
        | piece :: pieces => (c :: piece) :: pieces
        | [] => [[c]]
        end
  end.

(** The pair cut at its first [=]. *)
Fixpoint split_eq (s : jsstring) : option (jsstring * jsstring) :=
  match s with
  | [] => None
  | c :: r =>
      if c =? 61 then Some ([], r)
      else '(k, v) ← split_eq r; Some (c :: k, v)
  end.

(** The white space and line terminators [String.prototype.trim] removes. *)
Definition is_trim_space (c : N) : bool :=
  ((9 <=? c) && (c <=? 13)) || (c =? 32) || (c =? 160) || (c =? 5760)
  || ((8192 <=? c) && (c <=? 8202)) || (c =? 8232) || (c =? 8233)
  || (c =? 8239) || (c =? 8287) || (c =? 12288) || (c =? 65279).

Fixpoint trim_start (s : jsstring) : jsstring :=
  match s with
  | c :: r => if is_trim_space c then trim_start r else s
  | [] => []
  end.

Definition trim (s : jsstring) : jsstring :=
  rev (trim_start (rev (trim_start s))).

(** [val.slice(1, -1)] *)
Definition unquote (val : jsstring) : jsstring :=
  match val with
  | c :: r => if c =? 34 then rev (tail (rev r)) else val
  | [] => []
  end.

(** [parse(str, options)] with the default [decode]; the first pair of
    a name wins, and a name that the result inherits from
    [Object.prototype] is never assigned. *)
Definition cookie_parse (str : jsstring) (opt : options)
    : gmap jsstring jsstring :=
  foldl (λ (obj : gmap jsstring jsstring) pair,
           match split_eq pair with
           | None => obj
           | Some (k, v) =>
               let key := trim k in
               let val := unquote (trim v) in
               match obj !! key, Object_prototype !! key with
               | None, None =>
                   <[key := try_catch (decodeURIComponent val) val]> obj
               | _, _ => obj
               end
           end)
        ∅ (split_pairs false str).

(** *** [URL], [Buffer] and the table of binary types *)

Definition is_lower (c : N) : bool := (97 <=? c) && (c <=? 122).

(** A host made of dot-separated labels of lower-case letters. *)
Fixpoint is_plain_host (expect_letter : bool) (s : jsstring) : bool :=
  match s with
  | [] => negb expect_letter
  | c :: r =>
      if is_lower c then is_plain_host false r
      else (c =? 46) && negb expect_letter && is_plain_host true r
  end.

(** The path and query of a plain target: a path of letters, digits and
    [-_~/] that does not start with two slashes, then an optional query
    of the same characters and [=&.?]. *)
Fixpoint is_plain_target (in_query : bool) (s : jsstring) : bool :=
  match s with
  | [] => true
  | c :: r =>
      if is_ascii_alnum c || bool_decide (c ∈ js "-_~/") then is_plain_target in_query r
      else if c =? 63 then is_plain_target true r
      else in_query && bool_decide (c ∈ js "=&.") && is_plain_target in_query r
  end.

(** [new URL(input, base).href] for a plain absolute-path target resolved
    against [https://] and a plain host: the base followed by the target.
    Every other pair of arguments is outside the fragment and is
    rejected. *)
Definition URL_href (input base : jsstring) : result jsstring :=
  match strip_prefix (js "https://") base, input with
  | Some host, c :: r =>
      if is_plain_host true host && (c =? 47)
         && negb (bool_decide (head r = Some 47))
         && is_plain_target false input
      then Ok (base ++ input)
      else Throw TypeError
  | _, _ => Throw TypeError
  end.

(** [Buffer.from(s, "base64")] on well-formed base64; no octets
    otherwise. *)
Definition Buffer_from_base64 (s : jsstring) : list Byte.byte :=
  default [] (Base64.decode_bytes s).

(** UTF-8 decoding of ASCII octets; any other octet becomes U+FFFD. *)
Definition Buffer_toString (bs : list Byte.byte) : jsstring :=
  map (λ b, if Byte.to_N b <? 128 then Byte.to_N b else 65533) bs.

(** An excerpt of the table of binary types, matched by equality. *)
Definition binaryTypes : list jsstring :=
  [js "application/octet-stream"; js "application/pdf"; js "application/zip";
   js "font/woff2"; js "image/gif"; js "image/jpeg"; js "image/png";
   js "audio/mpeg"; js "video/mpeg"].

Definition inBinaryTypes (contentType : jsstring) : bool :=
  bool_decide (contentType ∈ binaryTypes).

(** *** A signature pair

    The shape of the pair of the runtimes: the value, a dot and a tag of
    value and secret; [unsign] cuts at the last dot and compares with the
    signature it computes.  The tag here is a plain encoding of the
    secret and the length of the value, not a MAC. *)
Definition sign : SignFunction :=
  λ value secret,
    value ++ js "." ++ Base64.encode (map (λ c, c mod 256) secret)
          ++ decimal (Z.of_nat (length value)).

Fixpoint dropwhile_not_dot (s : jsstring) : jsstring :=
  match s with
  | c :: r => if c =? 46 then s else dropwhile_not_dot r
  | [] => []
  end.

(** [cookie.slice(0, cookie.lastIndexOf("."))] *)
Definition before_last_dot (cookie : jsstring) : jsstring :=
  rev (tail (dropwhile_not_dot (rev cookie))).

Definition unsign : UnsignFunction :=
  λ cookie secret,
    let value := before_last_dot cookie in
    if decide (sign value secret = cookie) then Some value else None.

Definition runtime : Runtime :=
  Build_Runtime JSON_stringify JSON_parse Base64.btoa Base64.atob
                cookie_parse cookie_serialize URL_href
                Buffer_from_base64 Buffer_toString inBinaryTypes.

(** [Buffer.from(s, "binary").toString("base64")], the [btoa] of a
    polyfill on a platform without the global: a code unit above U+00FF
    is cut to its low octet. *)
Definition btoa_binary (s : jsstring) : result jsstring :=
  Ok (Base64.encode (map (λ c, c mod 256) s)).

(** The reference runtime with that [btoa]. *)
Definition runtime_binary : Runtime :=
  Build_Runtime JSON_stringify JSON_parse btoa_binary Base64.atob
                cookie_parse cookie_serialize URL_href
                Buffer_from_base64 Buffer_toString inBinaryTypes.

End Reference.

(** ** Sample inputs *)

Module Samples.

(** The event of the example of the specification. *)
Definition event : Event.t :=
  {| Event.rawPath := js "/foo"; Event.rawQueryString := js "a=1";
     Event.headers := [(js "host", Some (js "x.test"))];
     Event.cookies := None; Event.method := js "GET";
     Event.body := None; Event.isBase64Encoded := false |}.

(** A POST with a base64 body and an empty [cookies] array. *)
Definition post_event : Event.t :=
  {| Event.rawPath := js "/login"; Event.rawQueryString := [];
     Event.headers := [(js "host", Some (js "x.test"));
                       (js "content-type", Some (js "text/plain"));
                       (js "x-empty", Some []); (js "x-missing", None)];
     Event.cookies := Some []; Event.method := js "POST";
     Event.body := Some (js "aGVsbG8="); Event.isBase64Encoded := true |}.

(** An event whose [x-forwarded-host] header is present and empty. *)
Definition forwarded_event : Event.t :=
  {| Event.rawPath := js "/foo"; Event.rawQueryString := js "a=1";
     Event.headers := [(js "x-forwarded-host", Some []);
                       (js "host", Some (js "x.test"))];
     Event.cookies := None; Event.method := js "GET";
     Event.body := None; Event.isBase64Encoded := false |}.

(** A page that sets two cookies, under two spellings of the name. *)
Definition html_response : Response.t :=
  {| Response.status := 200;
     Response.headers :=
       Headers.append (js "set-cookie") (js "b=2")
         (Headers.append (js "Set-Cookie") (js "a=1")
            (Headers.append (js "Content-Type") (js "text/html")
               Headers.empty));
     Response.body := [Byte.x68; Byte.x69] |}.

(** An image. *)
Definition png_response : Response.t :=
  {| Response.status := 200;
     Response.headers :=
       Headers.append (js "content-type") (js "image/png") Headers.empty;
     Response.body := [Byte.x89; Byte.x50; Byte.x4e; Byte.x47; Byte.xff] |}.

(** Cookies named [sid]: unsigned, signed with one secret, and signed
    after a rotation that put a new secret first. *)
Definition unsigned_cookie : Cookie :=
  @createCookieFactory Reference.runtime Reference.sign Reference.unsign
    (js "sid") ∅.

Definition old_options : options :=
  {[ "secrets"%string := OStrings [js "s3cr3t"] ]}.

Definition rotated_options : options :=
  {[ "secrets"%string := OStrings [js "new"; js "s3cr3t"] ]}.

Definition value : any := VObject [(js "user", VString (js "ann"))].

(** [btoa(JSON.stringify(value))], and its signature under [s3cr3t]. *)
Definition encoded : jsstring := js "eyJ1c2VyIjoiYW5uIn0=".
Definition signed : jsstring := js "eyJ1c2VyIjoiYW5uIn0=.czNjcjN020".

(** The header [serialize] makes of [value] under [old_options]. *)
Definition signed_header : jsstring :=
  js "sid=eyJ1c2VyIjoiYW5uIn0%3D.czNjcjN020; Path=/".

(** The same under a secret that is not in [rotated_options]. *)
Definition foreign_options : options :=
  {[ "secrets"%string := OStrings [js "other"] ]}.

Definition foreign_header : jsstring :=
  js "sid=eyJ1c2VyIjoiYW5uIn0%3D.b3RoZXI%3D20; Path=/".

End Samples.

(** ** More sample inputs *)

Module MoreSamples.

(** An event that has a Cookie header and a [cookies] array. *)
Definition cookie_event_headers : list (jsstring * option jsstring) :=
  [(js "host", Some (js "x.test")); (js "cookie", Some (js "a=1"));
   (js "x-empty", Some []); (js "x-missing", None)].

Definition cookie_strings : list jsstring := [js "b=2"; js "c=3"].

(** An event without any host header. *)
Definition hostless_event : Event.t :=
  {| Event.rawPath := js "/foo"; Event.rawQueryString := [];
     Event.headers := [(js "accept", Some (js "text/html"))];
     Event.cookies := None; Event.method := js "GET";
     Event.body := None; Event.isBase64Encoded := false |}.

(** A response that asks to keep the connection alive, and sets a cookie. *)
Definition keep_alive_response : Response.t :=
  {| Response.status := 200;
     Response.headers :=
       Headers.append (js "Set-Cookie") (js "a=1")
         (Headers.append (js "CONNECTION") (js "keep-alive")
            (Headers.append (js "Content-Type") (js "text/html")
               Headers.empty));
     Response.body := [] |}.

(** The header [serialize] makes of [Samples.value] under the secret
    [new]. *)
Definition rotated_header : jsstring :=
  js "sid=eyJ1c2VyIjoiYW5uIn0%3D.bmV320; Path=/".

End MoreSamples.

(** * Properties *)

(** ** Base64 *)

(** Turns boolean comparisons on [N] in the context into propositions. *)
Ltac N_bool :=
  repeat match goal with
  | H : (_ && _) = true |- _ => apply andb_true_iff in H as [? ?]
  | H : (_ && _) = false |- _ => apply andb_false_iff in H as [?|?]
  | H : (_ || _) = true |- _ => apply orb_true_iff in H as [?|?]
  | H : (_ || _) = false |- _ => apply orb_false_iff in H as [? ?]
  | H : (_ <? _) = true |- _ => apply N.ltb_lt in H
  | H : (_ <? _) = false |- _ => apply N.ltb_ge in H
  | H : (_ <=? _) = true |- _ => apply N.leb_le in H
  | H : (_ <=? _) = false |- _ => apply N.leb_gt in H
  | H : (_ =? _) = true |- _ => apply N.eqb_eq in H
  | H : (_ =? _) = false |- _ => apply N.eqb_neq in H
  end.

Module Base64Facts.
Import Base64.

(* division and modulo by constants, for [lia] *)
Local Ltac Zify.zify_post_hook ::= Z.to_euclidean_division_equations.

Lemma b64_index_char n : n < 64 → b64_index (b64_char n) = Some n.
Proof.
  intros Hn. unfold b64_index, b64_char.
  repeat (case_match; N_bool; try lia); f_equal; lia.
Qed.

Lemma b64_char_not_pad n : b64_char n ≠ pad.
Proof.
  unfold b64_char, pad. repeat (case_match; N_bool; try lia).
Qed.

Lemma b64_char_not_whitespace n : is_ascii_whitespace (b64_char n) = false.
Proof.
  unfold is_ascii_whitespace, b64_char.
  repeat (case_match; N_bool; try lia);
    repeat (apply orb_false_iff; split); apply N.eqb_neq; lia.
Qed.

(** Induction three octets at a time. *)
Lemma list_ind3 {A} (P : list A → Prop) :
  P [] → (∀ a, P [a]) → (∀ a b, P [a; b]) →
  (∀ a b c l, P l → P (a :: b :: c :: l)) →
  ∀ l, P l.
Proof.
  intros H0 H1 H2 H3 l.
  assert (P l ∧ (∀ a, P (a :: l)) ∧ (∀ a b, P (a :: b :: l))) as [? _].
  { induction l as [|x l (IH0 & IH1 & IH2)]; [by auto|].
    split_and!; intros; auto. }
  done.
Qed.

Lemma to_sextets_bound bs :
  Forall (λ b, b < 256) bs → Forall (λ s, s < 64) (to_sextets bs).
Proof.
  induction bs using list_ind3; intros Hb; simpl;
    repeat match goal with
    | H : Forall _ (_ :: _) |- _ => apply Forall_cons in H as [? ?]
    end;
    repeat (apply Forall_cons; split); auto; lia.
Qed.

Lemma of_to_sextets bs :
  Forall (λ b, b < 256) bs → of_sextets (to_sextets bs) = bs.
Proof.
  induction bs as [| a | a b | a b c l IH] using list_ind3; intros Hb; simpl;
    repeat match goal with
    | H : Forall _ (_ :: _) |- _ => apply Forall_cons in H as [? ?]
    end;
    rewrite ?IH by done; repeat f_equal; lia.
Qed.

Lemma to_sextets_length bs :
  (length (to_sextets bs) mod 4 ≠ 1)%nat.
Proof.
  induction bs as [| a | a b | a b c l IH] using list_ind3;
    cbn [to_sextets length]; try (intros ?; discriminate).
  intros E. apply IH. lia.
Qed.

Lemma mapM_index_char sx :
  Forall (λ s, s < 64) sx → mapM b64_index (map b64_char sx) = Some sx.
Proof.
  intros Hsx. apply mapM_Some. induction Hsx; simpl; constructor; auto.
  by apply b64_index_char.
Qed.

Lemma filter_whitespace_chars sx k :
  filter (λ c, is_ascii_whitespace c = false)
         (map b64_char sx ++ repeat pad k)
  = map b64_char sx ++ repeat pad k.
Proof.
  induction sx as [|s sx IH]; simpl.
  - induction k as [|k IH]; [done|]. simpl. by rewrite filter_cons_True, IH.
  - by rewrite filter_cons_True, IH by apply b64_char_not_whitespace.
Qed.

Lemma strip_padding_chars sx k :
  (k ≤ 2)%nat →
  strip_padding (map b64_char sx ++ repeat pad k) = map b64_char sx.
Proof.
  intros Hk. unfold strip_padding.
  assert (Hm : Forall (λ c, c ≠ pad) (rev (map b64_char sx))).
  { apply Forall_forall. intros c Hc%list_elem_of_In%in_rev%in_map_iff.
    destruct Hc as (s & <- & _). apply b64_char_not_pad. }
  rewrite rev_app_distr, rev_repeat.
  destruct (rev (map b64_char sx)) as [|p r] eqn:E.
  - apply (f_equal (@rev N)) in E. rewrite rev_involutive in E.
    rewrite E. by destruct k as [|[|[|k]]]; [| | |lia].
  - apply Forall_cons in Hm as [Hp%N.eqb_neq Hr].
    destruct k as [|[|[|k]]]; [| | |lia]; cbn [repeat app].
    + rewrite Hp. destruct r; by rewrite app_nil_r.
    + rewrite Hp, <- E. apply rev_involutive.
    + rewrite <- E. apply rev_involutive.
Qed.

(** Decoding inverts encoding on octets. *)
Lemma forgiving_decode_encode bs :
  Forall (λ b, b < 256) bs → forgiving_decode (encode bs) = Some bs.
Proof.
  intros Hb. unfold forgiving_decode, encode, padding.
  pose proof (to_sextets_length bs) as Hlen.
  set (sx := to_sextets bs) in *. set (n := length sx) in *.
  rewrite filter_whitespace_chars.
  assert (length (map b64_char sx ++ repeat pad ((4 - n mod 4) mod 4))
            mod 4 = 0)%nat as ->.
  { rewrite length_app, length_map, repeat_length. fold n. lia. }
  cbn [Nat.eqb]. rewrite strip_padding_chars by lia.
  rewrite length_map. fold n.
  destruct (Nat.eqb_spec (n mod 4) 1); [done|].
  rewrite mapM_index_char by by apply to_sextets_bound.
  simpl. f_equal. by apply of_to_sextets.
Qed.

(** [atob] inverts [btoa] wherever [btoa] is defined. *)
Lemma atob_btoa s e : btoa s = Ok e → atob e = Ok s.
Proof.
  unfold btoa, atob. destruct (forallb _ s) eqn:Hs; [|done].
  intros [= <-]. rewrite forgiving_decode_encode; [done|].
  pose proof (proj1 (forallb_forall _ _) Hs) as Hall. apply Forall_forall.
  intros c Hc%list_elem_of_In. apply Hall in Hc. N_bool. lia.
Qed.

(** [btoa] is defined exactly on strings of code units up to U+00FF. *)
Lemma btoa_Ok s : Forall (λ c, c ≤ 255) s → btoa s = Ok (encode s).
Proof.
  intros Hs. unfold btoa.
  assert (forallb (λ c, c <=? 255) s = true) as ->; [|done].
  apply (proj2 (forallb_forall _ _)). intros c Hc%list_elem_of_In.
  apply N.leb_le. by eapply Forall_forall in Hs.
Qed.

(** The encoding of any octet string is non-empty unless the string is. *)
Lemma encode_nil_inv bs : encode bs = [] → bs = [].
Proof.
  unfold encode. destruct bs as [|a [|b [|c l]]]; simpl; done.
Qed.

(** Decoding to bytes inverts encoding from bytes. *)
Lemma decode_encode_bytes bs : decode_bytes (encode_bytes bs) = Some bs.
Proof.
  unfold decode_bytes, encode_bytes.
  rewrite forgiving_decode_encode.
  - simpl. apply mapM_Some. induction bs; simpl; constructor; auto.
    apply Byte.of_to_N.
  - apply Forall_forall. intros n (b & <- & _)%list_elem_of_In%in_map_iff.
    pose proof (Byte.to_N_bounded b). lia.
Qed.

End Base64Facts.

(** ** The [Headers] class *)

Module HeadersFacts.
Import Headers.

Lemma toLowerCase_idemp s : toLowerCase (toLowerCase s) = toLowerCase s.
Proof.
  unfold toLowerCase. rewrite map_map. apply map_ext. intros c.
  repeat (case_match; N_bool; try lia); done.
Qed.

Lemma find_Some h n k :
  find h n = Some k → k ∈ map fst h ∧ toLowerCase k = toLowerCase n.
Proof.
  induction h as [|[k0 vs] h IH]; simpl; [done|].
  case_decide.
  - intros [= <-]. split; [left | done].
  - intros [??]%IH. split; [by right | done].
Qed.

Lemma find_None h n :
  find h n = None ↔ ∀ k, k ∈ map fst h → toLowerCase k ≠ toLowerCase n.
Proof.
  induction h as [|[k0 vs] h IH]; simpl.
  - split; [|done]. intros _ k Hk. inversion Hk.
  - case_decide as Hk0.
    + split; [done|]. intros Hall. destruct (Hall k0); [left | done].
    + rewrite IH. split.
      * intros Hall k [->|Hk]%elem_of_cons; auto.
      * intros Hall k Hk. apply Hall. by right.
Qed.

(** [find] only looks at the keys, and only up to case. *)
Lemma find_keys h h' n : map fst h = map fst h' → find h n = find h' n.
Proof.
  revert h'. induction h as [|[k0 vs] h IH]; intros [|[k0' vs'] h']; simpl;
    try done.
  intros [= -> Hk]. case_decide; [done|]. by apply IH.
Qed.

Lemma find_ext h n n' :
  toLowerCase n = toLowerCase n' → find h n = find h n'.
Proof.
  intros E. induction h as [|[k0 vs] h IH]; simpl; [done|].
  rewrite E, IH. done.
Qed.

Lemma update_keys h k f : map fst (update h k f) = map fst h.
Proof.
  induction h as [|[k0 vs] h IH]; simpl; [done|].
  case_decide; simpl; [done|]. by rewrite IH.
Qed.

Lemma values_of_update_eq h k f :
  k ∈ map fst h → values_of (update h k f) k = f (values_of h k).
Proof.
  induction h as [|[k0 vs] h IH]; simpl; [by intros ?%elem_of_nil|].
  intros [->|Hk]%elem_of_cons.
  - rewrite !decide_True by done. simpl. by rewrite decide_True.
  - case_decide as E; simpl; [by rewrite decide_True|].
    rewrite decide_False by done. auto.
Qed.

Lemma values_of_update_ne h k k' f :
  k ≠ k' → values_of (update h k f) k' = values_of h k'.
Proof.
  intros Hne. induction h as [|[k0 vs] h IH]; simpl; [done|].
  case_decide as E; simpl.
  - subst k0. by rewrite !decide_False.
  - case_decide; [done | apply IH].
Qed.

Lemma find_app_None h h' n : find h n = None → find (h ++ h') n = find h' n.
Proof.
  induction h as [|[k0 vs] h IH]; simpl; [done|].
  case_decide; [done | apply IH].
Qed.

Lemma find_app_Some h h' n k : find h n = Some k → find (h ++ h') n = Some k.
Proof.
  induction h as [|[k0 vs] h IH]; simpl; [done|].
  case_decide; [done | apply IH].
Qed.

Lemma values_of_app h h' k :
  k ∈ map fst h → values_of (h ++ h') k = values_of h k.
Proof.
  induction h as [|[k0 vs] h IH]; simpl; [by intros ?%elem_of_nil|].
  intros [->|Hk]%elem_of_cons; case_decide; auto; done.
Qed.

Lemma values_of_app_fresh h h' k :
  k ∉ map fst h → values_of (h ++ h') k = values_of h' k.
Proof.
  induction h as [|[k0 vs] h IH]; simpl; [done|].
  intros Hk. apply not_elem_of_cons in Hk as [??].
  rewrite decide_False by done. auto.
Qed.

Lemma find_remove_ne h k n :
  toLowerCase k ≠ toLowerCase n → find (remove h k) n = find h n.
Proof.
  intros Hne. induction h as [|[k0 vs] h IH]; simpl; [done|].
  case_decide as E; simpl.
  - subst k0. by rewrite decide_False.
  - by rewrite IH.
Qed.

Lemma values_of_remove_ne h k k' :
  k ≠ k' → values_of (remove h k) k' = values_of h k'.
Proof.
  intros Hne. induction h as [|[k0 vs] h IH]; simpl; [done|].
  case_decide as E; simpl.
  - subst k0. by rewrite decide_False.
  - by rewrite IH.
Qed.

(** Under the invariant, deleting the key found for a name leaves no
    key for that name. *)
Lemma find_remove h k n :
  NoDup (map (λ kv, toLowerCase kv.1) h) →
  find h n = Some k → find (remove h k) n = None.
Proof.
  induction h as [|[k0 vs] h IH]; simpl; [done|].
  intros [Hk0 Hnd]%NoDup_cons. case_decide as E.
  - intros [= <-]. rewrite decide_True by done.
    apply find_None. intros k Hk E'. apply Hk0.
    simpl in *. rewrite E, <- E'.
    apply list_elem_of_fmap in Hk as ([k' vs'] & -> & Hin).
    apply list_elem_of_fmap. by exists (k', vs').
  - intros Hf. assert (k0 ≠ k).
    { intros ->. by apply find_Some in Hf as [_ ?]. }
    rewrite decide_False by done. simpl. rewrite decide_False by done. auto.
Qed.

(** *** The invariant is established by the constructor and kept by
    every method. *)

Lemma wf_empty : wf empty.
Proof. split; constructor. Qed.

Lemma wf_update h k f :
  (∀ vs, f vs ≠ []) → wf h → wf (update h k f).
Proof.
  intros Hf [Hnd Hne]. split.
  - replace (map (λ kv, toLowerCase kv.1) (update h k f))
      with (map toLowerCase (map fst (update h k f)))
      by (by rewrite map_map).
    rewrite update_keys, map_map. done.
  - clear Hnd. induction Hne as [|[k0 vs] h Hvs Hne IH]; simpl; [constructor|].
    case_decide; constructor; simpl; auto.
Qed.

Lemma wf_snoc h name value :
  find h name = None → wf h → wf (h ++ [(name, [value])]).
Proof.
  intros Hf [Hnd Hne]. split.
  - rewrite map_app. apply NoDup_app. split_and!; [done| |apply NoDup_singleton].
    intros lk Hin ->%list_elem_of_singleton. simpl in Hin.
    apply list_elem_of_fmap in Hin as ([k vs] & E & Hin).
    eapply find_None; [exact Hf| |symmetry; exact E].
    apply list_elem_of_fmap. by exists (k, vs).
  - apply Forall_app. split; [done|]. by constructor.
Qed.

Lemma wf_append name value h : wf h → wf (append name value h).
Proof.
  intros Hwf. unfold append. destruct (find h name) eqn:Hf.
  - apply wf_update; [|done]. intros vs. by destruct vs.
  - by apply wf_snoc.
Qed.

Lemma wf_set name value h : wf h → wf (set name value h).
Proof.
  intros Hwf. unfold set. destruct (find h name) eqn:Hf.
  - by apply wf_update.
  - by apply wf_snoc.
Qed.

Lemma remove_sublist h k : sublist (remove h k) h.
Proof.
  induction h as [|[k0 vs] h IH]; simpl; [done|].
  case_decide; [by apply sublist_cons | by apply sublist_skip].
Qed.

Lemma wf_delete name h : wf h → wf (delete name h).
Proof.
  intros [Hnd Hne]. unfold delete. destruct (find h name) as [key|]; [|done].
  pose proof (remove_sublist h key) as Hsub. split.
  - eapply sublist_NoDup; [exact Hnd|]. by apply fmap_sublist.
  - apply Forall_forall. intros kv Hkv.
    eapply Forall_forall in Hne; [exact Hne|]. by eapply elem_of_sublist.
Qed.

(** *** Reading a name after a change under another name *)

Lemma get_delete_ne name n h :
  toLowerCase name ≠ toLowerCase n → get n (delete name h) = get n h.
Proof.
  intros Hne. unfold get, delete.
  destruct (find h name) as [key|] eqn:Hf; [|done].
  apply find_Some in Hf as [_ Hkey].
  rewrite find_remove_ne by congruence.
  destruct (find h n) as [k|] eqn:Hn; [|done].
  apply find_Some in Hn as [_ Hk].
  rewrite values_of_remove_ne; [done|]. intros ->. congruence.
Qed.

Lemma find_set_ne name value n h :
  toLowerCase name ≠ toLowerCase n → find (set name value h) n = find h n.
Proof.
  intros Hne. unfold set. destruct (find h name) as [key|] eqn:Hf.
  - apply find_keys, update_keys.
  - destruct (find h n) as [k|] eqn:Hn.
    + by apply find_app_Some.
    + rewrite find_app_None by done. simpl. by rewrite decide_False.
Qed.

Lemma get_set_ne name value n h :
  toLowerCase name ≠ toLowerCase n → get n (set name value h) = get n h.
Proof.
  intros Hne. unfold get. rewrite find_set_ne by done.
  destruct (find h n) as [k|] eqn:Hn; [|done].
  apply find_Some in Hn as [Hin Hk]. f_equal. f_equal.
  unfold set. destruct (find h name) as [key|] eqn:Hf.
  - apply find_Some in Hf as [_ Hkey].
    apply values_of_update_ne. intros ->. congruence.
  - by apply values_of_app.
Qed.

(** *** Appending *)

Lemma find_None_not_key h n : find h n = None → n ∉ map fst h.
Proof. intros Hf Hin. by eapply find_None in Hin. Qed.

Lemma get_all_append name value h :
  get_all name (append name value h) = get_all name h ++ [value].
Proof.
  unfold get_all, append. destruct (find h name) as [key|] eqn:Hf.
  - rewrite (find_keys _ h) by apply update_keys. rewrite Hf.
    apply values_of_update_eq. by apply find_Some in Hf as [? _].
  - rewrite find_app_None by done. simpl. rewrite decide_True by done.
    rewrite values_of_app_fresh by by apply find_None_not_key.
    simpl. by rewrite decide_True.
Qed.

Lemma get_append_fresh name value h :
  get name h = None → get name (append name value h) = Some value.
Proof.
  intros Hget. pose proof (get_all_append name value h) as Hall.
  unfold get, get_all in *. destruct (find h name) eqn:Hf; [done|].
  destruct (find (append name value h) name) as [key|] eqn:Hf'.
  - by rewrite Hall.
  - unfold append in Hf'. rewrite Hf, find_app_None in Hf' by done.
    simpl in Hf'. by rewrite decide_True in Hf'.
Qed.

(** *** The iteration and [Object.fromEntries] *)

Lemma entries_keys h k :
  k ∈ map fst (entries h) → ∃ key, key ∈ map fst h ∧ k = toLowerCase key.
Proof.
  unfold entries. rewrite map_map. simpl.
  intros (key & -> & Hin)%list_elem_of_fmap. exists key. split; [|done].
  by rewrite merge_sort_Permutation in Hin.
Qed.

Lemma lookup_foldl_insert (l : list (jsstring * jsstring))
    (m : gmap jsstring jsstring) k :
  is_Some (foldl (λ m kv, <[kv.1 := kv.2]> m) m l !! k) →
  is_Some (m !! k) ∨ k ∈ map fst l.
Proof.
  revert m. induction l as [|[k0 v0] l IH]; intros m; simpl; [by left|].
  intros [Hm|Hin]%IH; [|right; by right].
  simpl in Hm. destruct (decide (k0 = k)) as [->|Hne].
  - right. left.
  - rewrite lookup_insert_ne in Hm by done. by left.
Qed.

Lemma lookup_fromEntries l k :
  is_Some (Object_fromEntries l !! k) → k ∈ map fst l.
Proof.
  intros [Hm|Hin]%lookup_foldl_insert; [|done].
  rewrite lookup_empty in Hm. by destruct Hm.
Qed.

End HeadersFacts.

(** ** The Architect adapter *)

Section AdapterFacts.
Context `{Runtime}.
Import Headers HeadersFacts.

Lemma foldl_snoc_all (acc vs : list jsstring) :
  foldl (λ cookies value, cookies ++ [value]) acc vs = acc ++ vs.
Proof.
  revert acc. induction vs as [|v vs IH]; intros acc; simpl.
  - by rewrite app_nil_r.
  - by rewrite IH, <- app_assoc.
Qed.

Lemma collect_cookies_acc raw acc :
  foldl (λ cookies (entry : jsstring * list jsstring),
           if decide (toLowerCase entry.1 = js "set-cookie")
           then foldl (λ cookies value, cookies ++ [value]) cookies entry.2
           else cookies)
        acc raw
  = acc ++ flat_map (λ e, if decide (toLowerCase e.1 = js "set-cookie")
                          then e.2 else []) raw.
Proof.
  revert acc. induction raw as [|[k vs] raw IH]; intros acc; simpl.
  - by rewrite app_nil_r.
  - rewrite IH. case_decide; [|done].
    by rewrite foldl_snoc_all, <- app_assoc.
Qed.

(** The loop collects the values of every entry named [set-cookie] up to
    case, in the order of the map. *)
Lemma collect_cookies_flat_map raw :
  collect_cookies raw
  = flat_map (λ e, if decide (toLowerCase e.1 = js "set-cookie")
                   then e.2 else []) raw.
Proof. unfold collect_cookies. by rewrite collect_cookies_acc. Qed.

(** Under the invariant these are the values of the one key that
    matches. *)
Lemma collect_cookies_get_all h :
  NoDup (map (λ kv, toLowerCase kv.1) h) →
  collect_cookies h = get_all (js "Set-Cookie") h.
Proof.
  rewrite collect_cookies_flat_map. unfold get_all.
  induction h as [|[k vs] h IH]; simpl; [done|].
  intros [Hk Hnd]%NoDup_cons.
  change (toLowerCase (js "Set-Cookie")) with (js "set-cookie").
  destruct (decide (toLowerCase k = js "set-cookie")) as [E|E].
  - assert (find h (js "Set-Cookie") = None) as Hf.
    { apply find_None. intros k' Hk' E'. apply Hk. simpl. rewrite E.
      change (toLowerCase (js "Set-Cookie")) with (js "set-cookie") in E'.
      rewrite <- E'. apply list_elem_of_fmap in Hk' as ([k2 v2] & -> & ?).
      apply list_elem_of_fmap. by exists (k2, v2). }
    rewrite IH, Hf, decide_True by done. apply app_nil_r.
  - rewrite IH by done. simpl.
    destruct (find h (js "Set-Cookie")) as [key|] eqn:Hf; [|done].
    apply find_Some in Hf as [_ Hkey].
    rewrite decide_False; [done|]. intros ->. by apply E.
Qed.

Lemma values_of_nonempty h k :
  Forall (λ kv, kv.2 ≠ []) h → k ∈ map fst h → values_of h k ≠ [].
Proof.
  induction 1 as [|[k0 vs] h Hvs Hne IH]; simpl; [by intros ?%elem_of_nil|].
  intros Hin. case_decide; [done|].
  apply elem_of_cons in Hin as [->|Hin]; [done | auto].
Qed.

(** What [sendRemixResponse] leaves of the headers has no key named
    [set-cookie] up to case. *)
Lemma no_set_cookie_left h :
  wf h →
  find (if (0 <? length (collect_cookies h))%nat
        then delete (js "Set-Cookie") h else h) (js "Set-Cookie") = None.
Proof.
  intros [Hnd Hne]. rewrite collect_cookies_get_all by done.
  unfold get_all, delete.
  destruct (find h (js "Set-Cookie")) as [key|] eqn:Hf.
  - destruct (values_of h key) as [|v vs] eqn:Hv.
    + apply find_Some in Hf as [Hin _].
      by apply (values_of_nonempty h key) in Hin.
    + simpl. by apply find_remove.
  - simpl. done.
Qed.

Lemma not_set_cookie_Connection :
  toLowerCase (js "Connection") ≠ toLowerCase (js "Set-Cookie").
Proof. vm_compute. discriminate. Qed.

Lemma not_content_type_Set_Cookie :
  toLowerCase (js "Set-Cookie") ≠ toLowerCase (js "Content-Type").
Proof. vm_compute. discriminate. Qed.

Lemma not_content_type_Connection :
  toLowerCase (js "Connection") ≠ toLowerCase (js "Content-Type").
Proof. vm_compute. discriminate. Qed.

(** C3. For every response whose headers carry N Set-Cookie entries
    (matched case-insensitively), the gateway result of
    [sendRemixResponse] has a [cookies] array of length N that holds
    those values, and no key of [result.headers] is [set-cookie] in any
    spelling.  [wf] is the invariant of the [Headers] class. *)
Theorem sendRemixResponse_set_cookie
    (nodeResponse : Response.t) (abortController : AbortController) (N : nat) :
  wf (Response.headers nodeResponse) →
  length (get_all (js "Set-Cookie") (Response.headers nodeResponse)) = N →
  let result := sendRemixResponse nodeResponse abortController in
  length (GatewayResult.cookies result) = N
  ∧ GatewayResult.cookies result
    = get_all (js "Set-Cookie") (Response.headers nodeResponse)
  ∧ ∀ key, toLowerCase key = js "set-cookie" →
           GatewayResult.headers result !! key = None.
Proof.
  intros Hwf HN result.
  assert (GatewayResult.cookies result
          = get_all (js "Set-Cookie") (Response.headers nodeResponse)) as Hc.
  { subst result. unfold sendRemixResponse, raw.
    destruct (isBinaryType _); simpl; apply collect_cookies_get_all, Hwf. }
  split_and!; [by rewrite Hc | done |].
  intros key Hkey.
  destruct (GatewayResult.headers result !! key) as [v|] eqn:Hv; [|done].
  exfalso. subst result. unfold sendRemixResponse, raw in Hv.
  pose proof (no_set_cookie_left _ Hwf) as Hleft.
  set (h1 := if (0 <? length (collect_cookies _))%nat then _ else _) in *.
  set (h2 := if aborted abortController then _ else h1) in *.
  assert (find h2 (js "Set-Cookie") = None) as Hf.
  { subst h2. destruct (aborted abortController); [|done].
    rewrite find_set_ne; [done | apply not_set_cookie_Connection]. }
  destruct (isBinaryType _); simpl in Hv;
    (assert (key ∈ map fst (entries h2)) as Hin
       by (apply lookup_fromEntries; eauto));
    apply entries_keys in Hin as (k & Hk & ->);
    rewrite toLowerCase_idemp in Hkey;
    eapply find_None in Hf; eauto.
Qed.

(** C4. When the Content-Type of the response is in the binary
    allow-list, the result has [isBase64Encoded = true] and a body whose
    base64 decoding is the octets of the response; with any other
    Content-Type, or none, it has [isBase64Encoded = false] and the
    decoded text of the response as body. *)
Theorem sendRemixResponse_body_encoding
    (nodeResponse : Response.t) (abortController : AbortController) :
  let result := sendRemixResponse nodeResponse abortController in
  let contentType := get (js "Content-Type") (Response.headers nodeResponse) in
  (∀ ct, contentType = Some ct → inBinaryTypes ct = true →
     GatewayResult.isBase64Encoded result = true
     ∧ Base64.decode_bytes (GatewayResult.body result)
       = Some (arrayBuffer nodeResponse))
  ∧ (contentType = None
     ∨ (∃ ct, contentType = Some ct ∧ inBinaryTypes ct = false) →
     GatewayResult.isBase64Encoded result = false
     ∧ GatewayResult.body result = text nodeResponse).
Proof.
  intros result contentType. subst result. unfold sendRemixResponse.
  set (h1 := if (0 <? length (collect_cookies _))%nat then _ else _).
  set (h2 := if aborted abortController then _ else h1).
  assert (get (js "Content-Type") h2 = contentType) as ->.
  { subst h2 h1 contentType.
    destruct (aborted abortController);
      rewrite ?get_set_ne by apply not_content_type_Connection;
      destruct (0 <? length _)%nat;
      rewrite ?get_delete_ne by apply not_content_type_Set_Cookie; done. }
  split.
  - intros ct -> Hct. simpl. rewrite Hct. simpl.
    split; [done | apply Base64Facts.decode_encode_bytes].
  - intros [-> | (ct & -> & Hct)]; simpl; [done|]. by rewrite Hct.
Qed.

(** C7. When the event has a non-empty body and [isBase64Encoded] is
    true, the body of the constructed request is the base64 decoding of
    the event body, read as text; for every other event the body of the
    event is passed through as it is, [undefined] included.  So, where
    [Buffer.from] inverts the base64 encoding of some octets, an event
    that carries their encoding yields their text. *)
Theorem createRemixRequest_body
    (event : Event.t) (abortController : option AbortController)
    (request : Request.t) :
  createRemixRequest event abortController = Ok request →
  (∀ body, Event.body event = Some body → body ≠ [] →
           Event.isBase64Encoded event = true →
           Request.body request
           = Some (Buffer_toString (Buffer_from_base64 body)))
  ∧ (Event.body event = None ∨ Event.body event = Some []
     ∨ Event.isBase64Encoded event = false →
     Request.body request = Event.body event)
  ∧ (∀ octets, octets ≠ [] →
               Event.body event = Some (Base64.encode_bytes octets) →
               Event.isBase64Encoded event = true →
               Buffer_from_base64 (Base64.encode_bytes octets) = octets →
               Request.body request = Some (Buffer_toString octets)).
Proof.
  unfold createRemixRequest. destruct (URL_href _ _) as [href|e]; [|done].
  simpl. intros [= <-]. simpl. split_and!.
  - intros [|c body] -> Hne ->; done.
  - intros [-> | [-> | ->]]; [done | done |]. by rewrite andb_false_r.
  - intros octets Hne -> -> Hdecode.
    destruct (Base64.encode_bytes octets) as [|c body] eqn:Hencode.
    + apply Base64Facts.encode_nil_inv in Hencode. by destruct octets.
    + simpl. by rewrite Hdecode.
Qed.

(** C8, amended.  The URL of the constructed request is [rawPath],
    followed by ["?"] and [rawQueryString] when that is non-empty,
    resolved against [https://] and the host; the host is the
    [x-forwarded-host] header when it is present and non-empty, else the
    [host] header.  In particular, on a platform whose [URL] resolves
    [/foo?a=1] against [https://x.test] to [https://x.test/foo?a=1], the
    event of the example yields that URL. *)
Theorem createRemixRequest_url
    (event : Event.t) (abortController : option AbortController)
    (request : Request.t) :
  createRemixRequest event abortController = Ok request →
  let forwarded := header_property (Event.headers event) (js "x-forwarded-host") in
  let host := header_property (Event.headers event) (js "host") in
  let search := Event.rawQueryString event in
  (∃ target base,
      URL_href target base = Ok (Request.url request)
      ∧ (search = [] → target = Event.rawPath event)
      ∧ (search ≠ [] → target = Event.rawPath event ++ js "?" ++ search)
      ∧ (∀ h, forwarded = Some h → h ≠ [] → base = js "https://" ++ h)
      ∧ (forwarded = None ∨ forwarded = Some [] →
         ∀ h, host = Some h → base = js "https://" ++ h))
  ∧ (event = {| Event.rawPath := js "/foo"; Event.rawQueryString := js "a=1";
                Event.headers := [(js "host", Some (js "x.test"))];
                Event.cookies := None; Event.method := js "GET";
                Event.body := None; Event.isBase64Encoded := false |} →
     URL_href (js "/foo?a=1") (js "https://x.test")
       = Ok (js "https://x.test/foo?a=1") →
     Request.url request = js "https://x.test/foo?a=1").
Proof.
  unfold createRemixRequest.
  destruct (URL_href _ _) as [href|e] eqn:Hurl; [|done].
  simpl. intros [= <-]. simpl. split.
  - eexists _, _. split; [exact Hurl|]. unfold request_target, request_host.
    split_and!.
    + intros ->. simpl. apply app_nil_r.
    + by destruct (Event.rawQueryString event).
    + intros [|c h] -> ?; done.
    + intros [-> | ->] h ->; done.
  - intros -> Hx.
    assert (URL_href (js "/foo?a=1") (js "https://x.test") = Ok href) as Hx'
      by exact Hurl.
    congruence.
Qed.

(** C10. When the [cookies] field of the event is present and empty, the
    headers of the constructed request are those of the event with one
    more [Cookie] value, the empty string: the request carries an empty
    Cookie header, which is its whole Cookie header when the event has
    none among its headers. *)
Theorem createRemixHeaders_empty_cookies
    (event : Event.t) (abortController : option AbortController)
    (request : Request.t) :
  Event.cookies event = Some [] →
  createRemixRequest event abortController = Ok request →
  let without := createRemixHeaders (Event.headers event) None in
  Request.headers request = append (js "Cookie") [] without
  ∧ get_all (js "Cookie") (Request.headers request)
    = get_all (js "Cookie") without ++ [[]]
  ∧ (get (js "Cookie") without = None →
     get (js "Cookie") (Request.headers request) = Some []).
Proof.
  intros Hcookies. unfold createRemixRequest.
  destruct (URL_href _ _) as [href|e]; [|done].
  simpl. intros [= <-]. simpl. rewrite Hcookies.
  unfold createRemixHeaders at 1. simpl. split_and!.
  - done.
  - apply get_all_append.
  - apply get_append_fresh.
Qed.

End AdapterFacts.

(** ** The cookie codec *)

Section CookieFacts.
Context `{Runtime}.
Context (sign : SignFunction) (unsign : UnsignFunction).
Context (name : jsstring) (cookieOptions : options).

Lemma unsign_loop_first_verified value secrets :
  unsign_loop unsign value secrets = Ok (first_verified unsign value secrets).
Proof.
  unfold first_verified. induction secrets as [|secret secrets IH]; simpl.
  - done.
  - destruct (unsign value secret); simpl; done.
Qed.

Lemma decodeCookieValue_signed value secrets :
  secrets ≠ [] →
  decodeCookieValue unsign value secrets
  = Ok (first_verified unsign value secrets).
Proof.
  intros Hs. unfold decodeCookieValue.
  destruct secrets; [done|]. apply unsign_loop_first_verified.
Qed.

Lemma decodeCookieValue_unsigned value :
  decodeCookieValue unsign value [] = Ok (decodeData value).
Proof. done. Qed.

(** [isSigned] is true exactly when a secret is configured. *)
Lemma isSigned_iff :
  isSigned (createCookieFactory sign unsign name cookieOptions) = true
  ↔ secrets_of cookieOptions ≠ [].
Proof. simpl. by destruct (secrets_of cookieOptions). Qed.

(** What [parse] does with a present, non-empty value of the cookie. *)
Lemma parse_present cookieHeader parseOptions raw :
  cookieHeader ≠ [] → raw ≠ [] →
  cookie_parse cookieHeader (spread (options_of cookieOptions) parseOptions)
    !! name = Some raw →
  parse (createCookieFactory sign unsign name cookieOptions)
        (Some cookieHeader) parseOptions
  = decodeCookieValue unsign raw (secrets_of cookieOptions).
Proof.
  intros Hh Hraw Hc. simpl. destruct cookieHeader; [done|].
  rewrite Hc. by destruct raw.
Qed.

Lemma parse_empty_value cookieHeader parseOptions :
  cookieHeader ≠ [] →
  cookie_parse cookieHeader (spread (options_of cookieOptions) parseOptions)
    !! name = Some [] →
  parse (createCookieFactory sign unsign name cookieOptions)
        (Some cookieHeader) parseOptions
  = Ok (VString []).
Proof.
  intros Hh Hc. simpl. destruct cookieHeader; [done|]. by rewrite Hc.
Qed.

(** What [serialize] does with a value other than the empty string. *)
Lemma serialize_value value serializeOptions :
  is_empty_string value = false →
  serialize (createCookieFactory sign unsign name cookieOptions)
            value serializeOptions
  = (let! encoded := btoa (JSON_stringify value) in
     cookie_serialize name
       match secrets_of cookieOptions with
       | [] => encoded
       | first :: _ => sign encoded first
       end
       (spread (options_of cookieOptions) serializeOptions)).
Proof.
  intros Hv. simpl. rewrite Hv. unfold encodeCookieValue, encodeData.
  destruct (btoa (JSON_stringify value)); simpl; [|done].
  by destruct (secrets_of cookieOptions).
Qed.

(** What [parse] does when the name of the cookie is absent from the
    mapping the header parses to: [name in cookies] still holds for a
    property of [Object.prototype]. *)
Lemma parse_absent cookieHeader parseOptions :
  cookieHeader ≠ [] →
  cookie_parse cookieHeader (spread (options_of cookieOptions) parseOptions)
    !! name = None →
  parse (createCookieFactory sign unsign name cookieOptions)
        (Some cookieHeader) parseOptions
  = match Object_prototype !! name with
    | Some text => decodeInheritedValue text (secrets_of cookieOptions)
    | None => Ok VNull
    end.
Proof.
  intros Hh Hc. simpl. destruct cookieHeader; [done|]. by rewrite Hc.
Qed.

(** [parse] returns [null] when the header is absent; it returns [null]
    when the name of the cookie is absent from the mapping the header
    parses to and is not a property of [Object.prototype]; and when the
    name is present with the empty string as raw value, it returns the
    empty string, whatever [unsign], [atob] and [JSON.parse] would do:
    nothing is decoded or verified. *)
Lemma parse_absent_or_empty
    (cookieHeader : jsstring) (parseOptions : options) :
  let cookie := createCookieFactory sign unsign name cookieOptions in
  let cookies :=
    cookie_parse cookieHeader
                 (spread (options_of cookieOptions) parseOptions) in
  parse cookie None parseOptions = Ok VNull
  ∧ (Object_prototype !! name = None → cookies !! name = None →
     parse cookie (Some cookieHeader) parseOptions = Ok VNull)
  ∧ (cookieHeader ≠ [] → cookies !! name = Some [] →
     parse cookie (Some cookieHeader) parseOptions = Ok (VString [])).
Proof.
  intros cookie cookies. subst cookie cookies. split_and!.
  - done.
  - intros Hp Hc. simpl. destruct cookieHeader; [done|]. by rewrite Hc, Hp.
  - apply parse_empty_value.
Qed.

(** C2. With a non-empty list of secrets, [parse] of a present,
    non-empty value tries the secrets in list order and returns the
    decoding of the value unsigned under the first that verifies it, and
    [null], without raising, when none does.  So a value signed with [S]
    parses under the secrets [[S2; S]] as it does under [S], and a value
    that no secret of the list verifies parses to [null]. *)
Theorem parse_signed
    (cookieHeader : jsstring) (parseOptions : options) (raw : jsstring) :
  let cookie := createCookieFactory sign unsign name cookieOptions in
  let secrets := secrets_of cookieOptions in
  secrets ≠ [] → cookieHeader ≠ [] → raw ≠ [] →
  cookie_parse cookieHeader (spread (options_of cookieOptions) parseOptions)
    !! name = Some raw →
  parse cookie (Some cookieHeader) parseOptions
    = Ok (first_verified unsign raw secrets)
  ∧ (∀ data S S2, raw = sign data S → secrets = [S2; S] →
                  unsign raw S = Some data → unsign raw S2 = None →
                  parse cookie (Some cookieHeader) parseOptions
                  = Ok (decodeData data))
  ∧ ((∀ secret, secret ∈ secrets → unsign raw secret = None) →
     parse cookie (Some cookieHeader) parseOptions = Ok VNull).
Proof.
  intros cookie secrets Hs Hh Hraw Hc. subst cookie.
  rewrite (parse_present _ _ raw) by done.
  rewrite decodeCookieValue_signed by done. fold secrets. split_and!.
  - done.
  - intros data S S2 -> -> HS HS2. unfold first_verified. simpl.
    by rewrite HS2, HS.
  - intros Hnone. f_equal. unfold first_verified.
    induction secrets as [|secret rest IH]; [done|]. simpl.
    rewrite Hnone by left. simpl. destruct rest as [|next rest]; [done|].
    apply IH; [done|]. intros s Hin. apply Hnone. by right.
Qed.

(** C9. With no secrets, [parse] of a present, non-empty value whose
    base64 decoding or JSON decoding fails returns the empty object and
    does not raise. *)
Theorem parse_unsigned_decode_failure
    (cookieHeader : jsstring) (parseOptions : options) (raw : jsstring) :
  let cookie := createCookieFactory sign unsign name cookieOptions in
  secrets_of cookieOptions = [] → cookieHeader ≠ [] → raw ≠ [] →
  cookie_parse cookieHeader (spread (options_of cookieOptions) parseOptions)
    !! name = Some raw →
  ((∃ e, atob raw = Throw e)
   ∨ (∃ text e, atob raw = Ok text ∧ JSON_parse text = Throw e)) →
  parse cookie (Some cookieHeader) parseOptions = Ok (VObject []).
Proof.
  intros cookie Hs Hh Hraw Hc Hfail. subst cookie.
  rewrite (parse_present _ _ raw) by done. rewrite Hs.
  rewrite decodeCookieValue_unsigned. f_equal. unfold decodeData.
  destruct Hfail as [[e ->] | (text & e & -> & Hp)]; simpl; [done|].
  by rewrite Hp.
Qed.

Lemma secrets_of_insert (secrets : list jsstring) (o : options) :
  secrets_of (<["secrets"%string := OStrings secrets]> o) = secrets.
Proof.
  unfold secrets_of, with_defaults, spread.
  by rewrite (lookup_union_Some_l _ _ _ (OStrings secrets))
    by apply lookup_insert_eq.
Qed.

Lemma options_of_insert (secrets : list jsstring) (o : options) :
  options_of (<["secrets"%string := OStrings secrets]> o) = options_of o.
Proof.
  unfold options_of, with_defaults, spread.
  by rewrite !delete_union, delete_insert_eq.
Qed.

(** C6. For a value other than the empty string, [serialize] encodes it
    as [btoa(JSON.stringify(value))], signs the encoding with the first
    secret when there is one, and hands the result to the [cookie]
    package.  No other secret is used: the header does not depend on the
    secrets after the first. *)
Theorem serialize_encoding (value : any) (serializeOptions : options) :
  let cookie := createCookieFactory sign unsign name cookieOptions in
  is_empty_string value = false →
  serialize cookie value serializeOptions
    = (let! encoded := btoa (JSON_stringify value) in
       cookie_serialize name
         match secrets_of cookieOptions with
         | [] => encoded
         | first :: _ => sign encoded first
         end
         (spread (options_of cookieOptions) serializeOptions))
  ∧ (∀ first rest rest',
       serialize
         (createCookieFactory sign unsign name
            (<["secrets"%string := OStrings (first :: rest)]> cookieOptions))
         value serializeOptions
       = serialize
           (createCookieFactory sign unsign name
              (<["secrets"%string := OStrings (first :: rest')]> cookieOptions))
           value serializeOptions).
Proof.
  intros cookie Hv. subst cookie. split.
  - by apply serialize_value.
  - intros first rest rest'. simpl.
    rewrite Hv, !secrets_of_insert, !options_of_insert.
    unfold encodeCookieValue. by destruct (encodeData value).
Qed.

(** The empty string is serialized as it is, and read back as it is. *)
Lemma serialize_empty_string serializeOptions parseOptions header :
  let cookie := createCookieFactory sign unsign name cookieOptions in
  cookie_serialize name []
    (spread (options_of cookieOptions) serializeOptions) = Ok header →
  header ≠ [] →
  cookie_parse header (spread (options_of cookieOptions) parseOptions)
    !! name = Some [] →
  serialize cookie (VString []) serializeOptions = Ok header
  ∧ parse cookie (Some header) parseOptions = Ok (VString []).
Proof.
  intros cookie Hser Hh Hpar. subst cookie. split; [done|].
  by apply parse_empty_value.
Qed.

(** The round trip, for a value whose JSON text [btoa] accepts: if
    [atob] inverts [btoa] on it, [JSON.parse] inverts [JSON.stringify],
    [unsign] inverts [sign] under the first secret, the signed string is
    not empty, and the [cookie] package reads back the value it wrote,
    then [parse] returns the value [serialize] was given. *)
Lemma parse_serialize_roundtrip value serializeOptions parseOptions
    encoded header :
  let cookie := createCookieFactory sign unsign name cookieOptions in
  let signed :=
    match secrets_of cookieOptions with
    | [] => encoded
    | first :: _ => sign encoded first
    end in
  is_empty_string value = false →
  btoa (JSON_stringify value) = Ok encoded →
  atob encoded = Ok (JSON_stringify value) →
  JSON_parse (JSON_stringify value) = Ok value →
  (∀ first rest, secrets_of cookieOptions = first :: rest →
                 unsign signed first = Some encoded) →
  signed ≠ [] →
  cookie_serialize name signed
    (spread (options_of cookieOptions) serializeOptions) = Ok header →
  header ≠ [] →
  cookie_parse header (spread (options_of cookieOptions) parseOptions)
    !! name = Some signed →
  serialize cookie value serializeOptions = Ok header
  ∧ parse cookie (Some header) parseOptions = Ok value.
Proof.
  intros cookie signed Hv Hbtoa Hatob Hjson Hunsign Hsigned Hser Hh Hpar.
  subst cookie. split.
  - rewrite serialize_value, Hbtoa by done. simpl. exact Hser.
  - rewrite (parse_present _ _ signed) by done.
    assert (decodeData encoded = value) as Hdec.
    { unfold decodeData. rewrite Hatob. simpl. by rewrite Hjson. }
    subst signed. destruct (secrets_of cookieOptions) as [|first rest] eqn:Hs.
    + by rewrite decodeCookieValue_unsigned, Hdec.
    + rewrite decodeCookieValue_signed by done.
      unfold first_verified. simpl.
      rewrite (Hunsign first rest) by done. simpl. by rewrite Hdec.
Qed.

End CookieFacts.

(** With the WHATWG [btoa] and [atob], the round trip holds for every value
    whose JSON text has no code unit above U+00FF. *)
Lemma parse_serialize_roundtrip_latin1 (R : Runtime)
    (sign : SignFunction) (unsign : UnsignFunction)
    (name : jsstring) (cookieOptions : options)
    (value : any) (serializeOptions parseOptions : options)
    (header : jsstring) :
  let cookie :=
    @createCookieFactory (with_whatwg_base64 R) sign unsign name cookieOptions in
  let encoded := Base64.encode (JSON_stringify value) in
  let signed :=
    match secrets_of cookieOptions with
    | [] => encoded
    | first :: _ => sign encoded first
    end in
  is_empty_string value = false →
  Forall (λ c, c ≤ 255) (JSON_stringify value) →
  JSON_parse (JSON_stringify value) = Ok value →
  (∀ first rest, secrets_of cookieOptions = first :: rest →
                 unsign signed first = Some encoded) →
  signed ≠ [] →
  cookie_serialize name signed
    (spread (options_of cookieOptions) serializeOptions) = Ok header →
  header ≠ [] →
  cookie_parse header (spread (options_of cookieOptions) parseOptions)
    !! name = Some signed →
  serialize cookie value serializeOptions = Ok header
  ∧ parse cookie (Some header) parseOptions = Ok value.
Proof.
  intros cookie encoded signed Hv Hlatin Hjson Hunsign Hsigned Hser Hh Hpar.
  pose proof (Base64Facts.btoa_Ok _ Hlatin) as Hbtoa.
  apply (@parse_serialize_roundtrip (with_whatwg_base64 R)) with (encoded := encoded);
    try done.
  by apply Base64Facts.atob_btoa.
Qed.

(** C1, at the value ["€"] (the one code unit U+20AC).  [JSON.stringify]
    leaves the character as it is and [btoa] rejects it: with the WHATWG
    [btoa], [serialize] raises [InvalidCharacterError] for every cookie,
    signed or not, so that no header exists for [parse] to return the value
    from.  With the [btoa] of a polyfill that cuts code units to octets,
    [serialize] returns a header, and [parse] of that header returns the
    string of the one code unit U+00AC, not the value. *)
Theorem serialize_non_latin1
    (sign : SignFunction) (unsign : UnsignFunction)
    (name : jsstring) (cookieOptions serializeOptions : options) :
  serialize
    (@createCookieFactory Reference.runtime sign unsign name cookieOptions)
    (VString [8364]) serializeOptions
  = Throw InvalidCharacterError
  ∧ let cookie :=
      @createCookieFactory Reference.runtime_binary
        Reference.sign Reference.unsign (js "sid") ∅ in
    serialize cookie (VString [8364]) ∅ = Ok (js "sid=Iqwi; Path=/")
    ∧ parse cookie (Some (js "sid=Iqwi; Path=/")) ∅ = Ok (VString [172]).
Proof.
  split.
  - reflexivity.
  - vm_compute. split; reflexivity.
Qed.

(** An unsigned cookie named after a property of [Object.prototype]
    parses a header that does not carry it to the empty object: with the
    WHATWG [atob], the text of the inherited value is not base64. *)
Lemma parse_inherited_unsigned (R : Runtime)
    (sign : SignFunction) (unsign : UnsignFunction)
    (name text : jsstring) (cookieOptions parseOptions : options)
    (cookieHeader : jsstring) :
  Object_prototype !! name = Some text →
  secrets_of cookieOptions = [] →
  cookieHeader ≠ [] →
  @cookie_parse (with_whatwg_base64 R) cookieHeader
    (spread (options_of cookieOptions) parseOptions) !! name = None →
  parse (@createCookieFactory (with_whatwg_base64 R) sign unsign name
           cookieOptions)
        (Some cookieHeader) parseOptions
  = Ok (VObject []).
Proof.
  intros Hp Hs Hh Hc.
  rewrite (@parse_absent (with_whatwg_base64 R)) by done.
  rewrite Hp, Hs. unfold decodeInheritedValue. simpl. f_equal.
  unfold Object_prototype in Hp. apply elem_of_list_to_map_2 in Hp.
  repeat (apply elem_of_cons in Hp as [[= -> ->]|Hp];
          [vm_compute; reflexivity|]).
  by apply elem_of_nil in Hp.
Qed.

(** C5, at the cookie named [toString].  The header [other=1] parses to a
    mapping in which the name [toString] is absent, yet [name in cookies]
    holds, through [Object.prototype], and [parse] does not return [null]:
    the inherited function is decoded as if it were the raw value.  For an
    unsigned cookie [atob] fails on the text of the function and [parse]
    returns the empty object; for a signed cookie [unsign] is handed the
    function and [parse] rejects. *)
Theorem parse_inherited_name (sign : SignFunction) (unsign : UnsignFunction) :
  let toString :=
    @createCookieFactory Reference.runtime sign unsign (js "toString") in
  @cookie_parse Reference.runtime (js "other=1") (spread (options_of ∅) ∅)
    !! js "toString" = None
  ∧ parse (toString ∅) (Some (js "other=1")) ∅ = Ok (VObject [])
  ∧ parse (toString Samples.old_options) (Some (js "other=1")) ∅
    = Throw TypeError.
Proof.
  intros toString. subst toString. split_and!; vm_compute; reflexivity.
Qed.

(** ** The theorems at sample inputs *)

Lemma sendRemixResponse_set_cookie_witness :
  let result :=
    @sendRemixResponse Reference.runtime Samples.html_response
                       {| aborted := true |} in
  length (GatewayResult.cookies result) = 2%nat
  ∧ GatewayResult.cookies result = [js "a=1"; js "b=2"]
  ∧ GatewayResult.headers result !! js "set-cookie" = None.
Proof.
  intros result.
  pose proof (@sendRemixResponse_set_cookie Reference.runtime
                Samples.html_response {| aborted := true |} 2) as W.
  cbv zeta in W. destruct W as (Hlen & Hcookies & Hheaders).
  - repeat apply HeadersFacts.wf_append. apply HeadersFacts.wf_empty.
  - vm_compute. reflexivity.
  - subst result.
    split_and!; [exact Hlen | rewrite Hcookies; vm_compute; reflexivity |].
    apply Hheaders. vm_compute. reflexivity.
Defined.

Lemma sendRemixResponse_body_encoding_witness :
  (let result :=
     @sendRemixResponse Reference.runtime Samples.png_response
                        {| aborted := false |} in
   GatewayResult.isBase64Encoded result = true
   ∧ Base64.decode_bytes (GatewayResult.body result)
     = Some (Response.body Samples.png_response))
  ∧ (let result :=
       @sendRemixResponse Reference.runtime Samples.html_response
                          {| aborted := false |} in
     GatewayResult.isBase64Encoded result = false
     ∧ GatewayResult.body result = js "hi").
Proof.
  split; intros result.
  - pose proof (@sendRemixResponse_body_encoding Reference.runtime
                  Samples.png_response {| aborted := false |}) as [W _].
    apply (W (js "image/png")).
    + vm_compute. reflexivity.
    + vm_compute. reflexivity.
  - pose proof (@sendRemixResponse_body_encoding Reference.runtime
                  Samples.html_response {| aborted := false |}) as [_ W].
    apply W. right. exists (js "text/html"). split.
    + vm_compute. reflexivity.
    + vm_compute. reflexivity.
Defined.

Lemma createRemixRequest_body_witness :
  ∃ request,
    @createRemixRequest Reference.runtime Samples.post_event None = Ok request
    ∧ Request.body request = Some (js "hello").
Proof.
  destruct (@createRemixRequest Reference.runtime Samples.post_event None)
    as [request|e] eqn:Hrequest.
  - exists request. split; [reflexivity|].
    destruct (@createRemixRequest_body Reference.runtime _ _ _ Hrequest)
      as (W & _ & _).
    rewrite (W (js "aGVsbG8=")); [vm_compute; reflexivity | reflexivity
                                  | discriminate | reflexivity].
  - vm_compute in Hrequest. discriminate.
Defined.

Lemma createRemixRequest_url_witness :
  ∃ request,
    @createRemixRequest Reference.runtime Samples.event None = Ok request
    ∧ Request.url request = js "https://x.test/foo?a=1".
Proof.
  destruct (@createRemixRequest Reference.runtime Samples.event None)
    as [request|e] eqn:Hrequest.
  - exists request. split; [reflexivity|].
    destruct (@createRemixRequest_url Reference.runtime _ _ _ Hrequest)
      as [_ W].
    apply W; [reflexivity | vm_compute; reflexivity].
  - vm_compute in Hrequest. discriminate.
Defined.

(** C8 as it is written fails on an event whose [x-forwarded-host] header
    is present and empty: the header is there, and the host of the URL is
    the [host] header all the same. *)
Lemma createRemixRequest_empty_forwarded_host :
  header_property (Event.headers Samples.forwarded_event)
                  (js "x-forwarded-host") = Some []
  ∧ request_host Samples.forwarded_event
    ≠ header_property (Event.headers Samples.forwarded_event)
                      (js "x-forwarded-host")
  ∧ ∃ request,
      @createRemixRequest Reference.runtime Samples.forwarded_event None
      = Ok request
      ∧ Request.url request = js "https://x.test/foo?a=1".
Proof.
  split_and!.
  - vm_compute. reflexivity.
  - vm_compute. discriminate.
  - eexists. split; vm_compute; reflexivity.
Qed.

Lemma createRemixHeaders_empty_cookies_witness :
  ∃ request,
    @createRemixRequest Reference.runtime Samples.post_event None = Ok request
    ∧ Headers.get (js "Cookie") (Request.headers request) = Some [].
Proof.
  destruct (@createRemixRequest Reference.runtime Samples.post_event None)
    as [request|e] eqn:Hrequest.
  - exists request. split; [reflexivity|].
    destruct (@createRemixHeaders_empty_cookies Reference.runtime
                Samples.post_event None request eq_refl Hrequest)
      as (_ & _ & W).
    apply W. vm_compute. reflexivity.
  - vm_compute in Hrequest. discriminate.
Defined.

Lemma parse_absent_or_empty_witness :
  parse Samples.unsigned_cookie None ∅ = Ok VNull
  ∧ parse Samples.unsigned_cookie (Some (js "other=1")) ∅ = Ok VNull
  ∧ parse Samples.unsigned_cookie (Some (js "other=1; sid=")) ∅
    = Ok (VString []).
Proof.
  pose proof (@parse_absent_or_empty Reference.runtime Reference.sign
                Reference.unsign (js "sid") ∅ (js "other=1") ∅) as W1.
  pose proof (@parse_absent_or_empty Reference.runtime Reference.sign
                Reference.unsign (js "sid") ∅ (js "other=1; sid=") ∅) as W2.
  cbv zeta in W1, W2.
  destruct W1 as (Hnull & Habsent & _). destruct W2 as (_ & _ & Hempty).
  split_and!.
  - exact Hnull.
  - apply Habsent; vm_compute; reflexivity.
  - apply Hempty; [discriminate | vm_compute; reflexivity].
Defined.

Lemma parse_signed_witness :
  let sid := @createCookieFactory Reference.runtime
               Reference.sign Reference.unsign (js "sid") in
  serialize (sid Samples.old_options) Samples.value ∅
    = Ok Samples.signed_header
  ∧ parse (sid Samples.rotated_options) (Some Samples.signed_header) ∅
    = Ok Samples.value
  ∧ serialize (sid Samples.foreign_options) Samples.value ∅
    = Ok Samples.foreign_header
  ∧ parse (sid Samples.rotated_options) (Some Samples.foreign_header) ∅
    = Ok VNull.
Proof.
  intros sid. subst sid. split_and!.
  - vm_compute. reflexivity.
  - pose proof (@parse_signed Reference.runtime Reference.sign Reference.unsign
                  (js "sid") Samples.rotated_options
                  Samples.signed_header ∅ Samples.signed) as W.
    cbv zeta in W. destruct W as (_ & W & _).
    + vm_compute. discriminate.
    + discriminate.
    + discriminate.
    + vm_compute. reflexivity.
    + rewrite (W Samples.encoded (js "s3cr3t") (js "new")).
      * vm_compute. reflexivity.
      * vm_compute. reflexivity.
      * vm_compute. reflexivity.
      * vm_compute. reflexivity.
      * vm_compute. reflexivity.
  - vm_compute. reflexivity.
  - pose proof (@parse_signed Reference.runtime Reference.sign Reference.unsign
                  (js "sid") Samples.rotated_options
                  Samples.foreign_header ∅
                  (js "eyJ1c2VyIjoiYW5uIn0=.b3RoZXI=20")) as W.
    cbv zeta in W. destruct W as (_ & _ & W).
    + vm_compute. discriminate.
    + discriminate.
    + discriminate.
    + vm_compute. reflexivity.
    + apply W. intros secret Hin.
      assert (secret = js "new" ∨ secret = js "s3cr3t") as [-> | ->].
      { vm_compute in Hin. apply elem_of_cons in Hin as [->|Hin]; [by left|].
        apply list_elem_of_singleton in Hin as ->. by right. }
      * vm_compute. reflexivity.
      * vm_compute. reflexivity.
Defined.

Lemma parse_unsigned_decode_failure_witness :
  parse Samples.unsigned_cookie (Some (js "sid=!!!")) ∅ = Ok (VObject [])
  ∧ parse Samples.unsigned_cookie (Some (js "sid=aGVsbG8%3D")) ∅
    = Ok (VObject []).
Proof.
  split.
  - apply (@parse_unsigned_decode_failure Reference.runtime Reference.sign
             Reference.unsign (js "sid") ∅ (js "sid=!!!") ∅ (js "!!!"));
      [reflexivity | discriminate | discriminate | vm_compute; reflexivity |].
    left. exists InvalidCharacterError. vm_compute. reflexivity.
  - apply (@parse_unsigned_decode_failure Reference.runtime Reference.sign
             Reference.unsign (js "sid") ∅ (js "sid=aGVsbG8%3D") ∅
             (js "aGVsbG8="));
      [reflexivity | discriminate | discriminate | vm_compute; reflexivity |].
    right. exists (js "hello"), SyntaxError. split; vm_compute; reflexivity.
Defined.

Lemma serialize_encoding_witness :
  serialize
    (@createCookieFactory Reference.runtime Reference.sign Reference.unsign
       (js "sid") Samples.rotated_options)
    Samples.value ∅
  = Ok (js "sid=eyJ1c2VyIjoiYW5uIn0%3D.bmV320; Path=/").
Proof.
  destruct (@serialize_encoding Reference.runtime Reference.sign
              Reference.unsign (js "sid") Samples.rotated_options
              Samples.value ∅ eq_refl) as [-> _].
  vm_compute. reflexivity.
Defined.

Lemma parse_serialize_roundtrip_latin1_witness :
  let cookie :=
    @createCookieFactory Reference.runtime Reference.sign Reference.unsign
      (js "sid") Samples.old_options in
  serialize cookie Samples.value ∅ = Ok Samples.signed_header
  ∧ parse cookie (Some Samples.signed_header) ∅ = Ok Samples.value.
Proof.
  apply (@parse_serialize_roundtrip_latin1 Reference.runtime Reference.sign
           Reference.unsign (js "sid") Samples.old_options Samples.value ∅ ∅
           Samples.signed_header).
  - reflexivity.
  - apply Forall_forall. intros c Hc. apply N.leb_le.
    revert c Hc. apply Forall_forall. apply (bool_decide_unpack _).
    vm_compute. exact I.
  - vm_compute. reflexivity.
  - intros first rest [= <- <-]. vm_compute. reflexivity.
  - vm_compute. discriminate.
  - vm_compute. reflexivity.
  - discriminate.
  - vm_compute. reflexivity.
Defined.

(** * Further properties *)

(** ** More on the [Headers] class *)

Module HeadersMore.
Import Headers HeadersFacts.

Lemma get_set_eq name value h : get name (set name value h) = Some value.
Proof.
  unfold get, set. destruct (find h name) as [key|] eqn:Hf.
  - rewrite (find_keys _ h) by apply update_keys. rewrite Hf.
    rewrite values_of_update_eq; [done|]. by apply find_Some in Hf as [? _].
  - rewrite find_app_None by done. simpl. rewrite decide_True by done.
    rewrite values_of_app_fresh by by apply find_None_not_key.
    simpl. by rewrite decide_True.
Qed.

Lemma find_append_ne name value n h :
  toLowerCase name ≠ toLowerCase n → find (append name value h) n = find h n.
Proof.
  intros Hne. unfold append. destruct (find h name) as [key|] eqn:Hf.
  - apply find_keys, update_keys.
  - destruct (find h n) as [k|] eqn:Hn.
    + by apply find_app_Some.
    + rewrite find_app_None by done. simpl. by rewrite decide_False.
Qed.

Lemma get_append_ne name value n h :
  toLowerCase name ≠ toLowerCase n → get n (append name value h) = get n h.
Proof.
  intros Hne. unfold get. rewrite find_append_ne by done.
  destruct (find h n) as [k|] eqn:Hn; [|done].
  apply find_Some in Hn as [Hin Hk]. f_equal. f_equal.
  unfold append. destruct (find h name) as [key|] eqn:Hf.
  - apply find_Some in Hf as [_ Hkey].
    apply values_of_update_ne. intros ->. congruence.
  - by apply values_of_app.
Qed.

Lemma append_keys name value h k :
  k ∈ map fst (append name value h) → k ∈ map fst h ∨ k = name.
Proof.
  unfold append. destruct (find h name) as [key|].
  - rewrite update_keys. by left.
  - rewrite map_app. simpl. intros [?|Hk]%elem_of_app; [by left|].
    apply list_elem_of_singleton in Hk. by right.
Qed.

Lemma join_snoc sep vs v :
  vs ≠ [] → join sep (vs ++ [v]) = join sep vs ++ sep ++ v.
Proof.
  induction vs as [|x vs IH]; [done|]. intros _.
  destruct vs as [|y vs]; [done|].
  change (join sep ((x :: y :: vs) ++ [v]))
    with (x ++ sep ++ join sep ((y :: vs) ++ [v])).
  rewrite IH by done.
  change (join sep (x :: y :: vs)) with (x ++ sep ++ join sep (y :: vs)).
  by rewrite <- !app_assoc.
Qed.

Lemma foldl_insert_notin (l : list (jsstring * jsstring))
    (m : gmap jsstring jsstring) k :
  k ∉ map fst l → foldl (λ m kv, <[kv.1 := kv.2]> m) m l !! k = m !! k.
Proof.
  revert m. induction l as [|[k0 v0] l IH]; intros m; simpl; [done|].
  intros [Hne Hk]%not_elem_of_cons. rewrite IH by done. simpl.
  by rewrite lookup_insert_ne.
Qed.

Lemma foldl_insert_NoDup (l : list (jsstring * jsstring))
    (m : gmap jsstring jsstring) k v :
  NoDup (map fst l) → (k, v) ∈ l →
  foldl (λ m kv, <[kv.1 := kv.2]> m) m l !! k = Some v.
Proof.
  revert m. induction l as [|[k0 v0] l IH]; intros m; simpl.
  - by intros _ ?%elem_of_nil.
  - intros [Hk0 Hnd]%NoDup_cons [[= -> ->]|Hin]%elem_of_cons.
    + rewrite foldl_insert_notin by done. simpl. apply lookup_insert_eq.
    + by apply IH.
Qed.

(** The object made of the iteration of well-formed headers holds, under
    the lower-cased name, what [get] returns. *)
Lemma fromEntries_get h n :
  wf h → Object_fromEntries (entries h) !! toLowerCase n = get n h.
Proof.
  intros [Hnd _]. unfold get. destruct (find h n) as [key|] eqn:Hf.
  - apply find_Some in Hf as [Hin <-].
    apply foldl_insert_NoDup.
    + unfold entries. rewrite map_map. simpl.
      rewrite merge_sort_Permutation, map_map. exact Hnd.
    + unfold entries. apply list_elem_of_fmap. exists key. split; [done|].
      by rewrite merge_sort_Permutation.
  - destruct (Object_fromEntries (entries h) !! toLowerCase n) eqn:Hl; [|done].
    exfalso. assert (toLowerCase n ∈ map fst (entries h)) as Hin
      by (apply lookup_fromEntries; eauto).
    apply entries_keys in Hin as (key & Hkey & E).
    pose proof (proj1 (find_None h n) Hf key Hkey) as Hne. congruence.
Qed.

End HeadersMore.

(** ** More on the Architect adapter *)

Section AdapterMore.
Context `{Runtime}.
Import Headers HeadersFacts HeadersMore.

(** The headers [sendRemixResponse] flattens are well formed. *)
Lemma wf_response_headers h (is_aborted : bool) :
  wf h →
  wf (if is_aborted
      then set (js "Connection") (js "close")
             (if (0 <? length (collect_cookies h))%nat
              then delete (js "Set-Cookie") h else h)
      else if (0 <? length (collect_cookies h))%nat
           then delete (js "Set-Cookie") h else h).
Proof.
  intros Hwf. destruct is_aborted; [apply wf_set|];
    destruct (0 <? length _)%nat; auto using wf_delete.
Qed.

Lemma sendRemixResponse_headers_eq nodeResponse abortController :
  GatewayResult.headers (sendRemixResponse nodeResponse abortController)
  = Object_fromEntries
      (entries
         (if aborted abortController
          then set (js "Connection") (js "close")
                 (if (0 <? length (collect_cookies (Response.headers nodeResponse)))%nat
                  then delete (js "Set-Cookie") (Response.headers nodeResponse)
                  else Response.headers nodeResponse)
          else if (0 <? length (collect_cookies (Response.headers nodeResponse)))%nat
               then delete (js "Set-Cookie") (Response.headers nodeResponse)
               else Response.headers nodeResponse)).
Proof.
  unfold sendRemixResponse, raw. destruct (isBinaryType _); simpl;
    by destruct (aborted abortController).
Qed.

(** X1. Every header of the response other than Set-Cookie reaches the
    result: [result.headers] holds, under the lower-cased name, the values
    of the header joined by [", "], and nothing under a name the response
    does not carry (the Connection header excepted when the request was
    aborted).  Every key of [result.headers] is lower-case. *)
Theorem sendRemixResponse_headers
    (nodeResponse : Response.t) (abortController : AbortController)
    (name : jsstring) :
  wf (Response.headers nodeResponse) →
  toLowerCase name ≠ js "set-cookie" →
  (aborted abortController = true → toLowerCase name ≠ js "connection") →
  let result := sendRemixResponse nodeResponse abortController in
  GatewayResult.headers result !! toLowerCase name
    = get name (Response.headers nodeResponse)
  ∧ ∀ key value, GatewayResult.headers result !! key = Some value →
                 toLowerCase key = key.
Proof.
  intros Hwf Hcookie Hconnection result. subst result.
  rewrite sendRemixResponse_headers_eq.
  pose proof (wf_response_headers _ (aborted abortController) Hwf) as Hwf2.
  split.
  - rewrite fromEntries_get by done.
    assert (toLowerCase (js "Set-Cookie") ≠ toLowerCase name) as Hne
      by (intros E; apply Hcookie; by rewrite <- E).
    destruct (aborted abortController).
    + rewrite get_set_ne
        by (intros E; apply Hconnection; [done | by rewrite <- E]).
      destruct (0 <? length _)%nat; [|done]. by apply get_delete_ne.
    + destruct (0 <? length _)%nat; [|done]. by apply get_delete_ne.
  - intros key value Hl.
    assert (key ∈ map fst (entries
      (if aborted abortController
       then set (js "Connection") (js "close")
              (if (0 <? length (collect_cookies (Response.headers nodeResponse)))%nat
               then delete (js "Set-Cookie") (Response.headers nodeResponse)
               else Response.headers nodeResponse)
       else if (0 <? length (collect_cookies (Response.headers nodeResponse)))%nat
            then delete (js "Set-Cookie") (Response.headers nodeResponse)
            else Response.headers nodeResponse))) as Hin
      by (apply lookup_fromEntries; eauto).
    apply entries_keys in Hin as (k & _ & ->). apply toLowerCase_idemp.
Qed.

(** X2. When the request was aborted, the result carries
    [connection: close], whatever Connection header the response had, in
    any spelling. *)
Theorem sendRemixResponse_aborted
    (nodeResponse : Response.t) (abortController : AbortController) :
  wf (Response.headers nodeResponse) →
  aborted abortController = true →
  GatewayResult.headers (sendRemixResponse nodeResponse abortController)
    !! js "connection" = Some (js "close").
Proof.
  intros Hwf Haborted. rewrite sendRemixResponse_headers_eq.
  pose proof (wf_response_headers _ (aborted abortController) Hwf) as Hwf2.
  change (js "connection") with (toLowerCase (js "Connection")).
  rewrite fromEntries_get by done. rewrite Haborted. apply get_set_eq.
Qed.

(** The fold of [createRemixHeaders] over the headers of the event. *)
Lemma createRemixHeaders_snoc hs header value :
  createRemixHeaders (hs ++ [(header, value)]) None
  = match value with
    | Some (c :: v) => append header (c :: v) (createRemixHeaders hs None)
    | _ => createRemixHeaders hs None
    end.
Proof. unfold createRemixHeaders. by rewrite foldl_app. Qed.

Lemma createRemixHeaders_keys hs key :
  key ∈ map fst (createRemixHeaders hs None) → key ∈ map fst hs.
Proof.
  induction hs as [|[header value] hs IH] using rev_ind.
  - by intros ?%elem_of_nil.
  - rewrite createRemixHeaders_snoc, map_app. simpl. intros Hin.
    apply elem_of_app.
    destruct value as [[|c v]|]; [left; auto | | left; auto].
    apply append_keys in Hin as [?| ->]; [left; auto | right; left].
Qed.

Lemma createRemixHeaders_wf hs cs : wf (createRemixHeaders hs cs).
Proof.
  assert (wf (createRemixHeaders hs None)) as Hwf.
  { induction hs as [|[header value] hs IH] using rev_ind.
    - apply wf_empty.
    - rewrite createRemixHeaders_snoc.
      destruct value as [[|c v]|]; auto using wf_append. }
  destruct cs as [cs|]; [|done]. by apply wf_append.
Qed.

Lemma createRemixHeaders_get hs n value :
  NoDup (map (λ entry, toLowerCase entry.1) hs) →
  (n, value) ∈ hs →
  get n (createRemixHeaders hs None) = if truthy value then value else None.
Proof.
  induction hs as [|[header v0] hs IH] using rev_ind.
  - by intros _ ?%elem_of_nil.
  - rewrite map_app, createRemixHeaders_snoc. simpl.
    intros (Hnd & Hfresh & _)%NoDup_app [Hin|Hin]%elem_of_app.
    + assert (toLowerCase header ≠ toLowerCase n) as Hne.
      { intros E. apply (Hfresh (toLowerCase n)); [|rewrite E; left].
        apply list_elem_of_fmap. by exists (n, value). }
      destruct v0 as [[|c v]|]; rewrite ?get_append_ne by done; auto.
    + apply list_elem_of_singleton in Hin as [= -> ->].
      assert (get header (createRemixHeaders hs None) = None) as Hnone.
      { unfold get.
        destruct (find (createRemixHeaders hs None) header) as [key|] eqn:Hf;
          [|done].
        apply find_Some in Hf as [Hkey E]. exfalso.
        apply createRemixHeaders_keys in Hkey.
        apply (Hfresh (toLowerCase header)); [|left].
        rewrite <- E. apply list_elem_of_fmap in Hkey as ([k o] & -> & ?).
        apply list_elem_of_fmap. by exists (k, o). }
      destruct v0 as [[|c v]|]; simpl; [done | | done].
      by apply get_append_fresh.
Qed.

(** X3. [createRemixHeaders] copies the headers of the event.  When every
    [append] is accepted (the names and values are legal) and the names of
    the event's headers differ even after lower-casing, each header with a
    non-empty value reads back with that value, and each header of a legal
    name whose value is missing or empty is left out.  The [cookies] array
    only touches the Cookie header. *)
Theorem createRemixHeaders_copies
    (requestHeaders : list (jsstring * option jsstring))
    (requestCookies : option (list jsstring))
    (header : jsstring) (value : option jsstring) :
  appends_accepted requestHeaders requestCookies = true →
  valid_name header = true →
  NoDup (map (λ entry, toLowerCase entry.1) requestHeaders) →
  (header, value) ∈ requestHeaders →
  toLowerCase header ≠ js "cookie" →
  get header (createRemixHeaders requestHeaders requestCookies)
  = if truthy value then value else None.
Proof.
  intros _ _ Hnd Hin Hcookie.
  rewrite <- (createRemixHeaders_get requestHeaders header value) by done.
  destruct requestCookies as [cs|]; [|done].
  change (createRemixHeaders requestHeaders (Some cs))
    with (append (js "Cookie") (join (js "; ") cs)
            (createRemixHeaders requestHeaders None)).
  apply get_append_ne. intros E. apply Hcookie. by rewrite <- E.
Qed.

(** X4. When every [append] is accepted, the cookie strings of the event
    are joined with ["; "] into one value, added after the values of a
    Cookie header of the event: the Cookie header of the request is that
    value alone when the event has no Cookie header, and the header of the
    event, [", "] and that value when it has one. *)
Theorem createRemixHeaders_cookies
    (requestHeaders : list (jsstring * option jsstring))
    (requestCookies : list jsstring) :
  appends_accepted requestHeaders (Some requestCookies) = true →
  let without := createRemixHeaders requestHeaders None in
  let headers := createRemixHeaders requestHeaders (Some requestCookies) in
  let joined := join (js "; ") requestCookies in
  get_all (js "Cookie") headers = get_all (js "Cookie") without ++ [joined]
  ∧ (get (js "Cookie") without = None →
     get (js "Cookie") headers = Some joined)
  ∧ (∀ cookie, get (js "Cookie") without = Some cookie →
               get (js "Cookie") headers = Some (cookie ++ js ", " ++ joined)).
Proof.
  intros _ without headers joined.
  assert (headers = append (js "Cookie") joined without) as -> by done.
  pose proof (get_all_append (js "Cookie") joined without) as Hall.
  split_and!.
  - done.
  - apply get_append_fresh.
  - intros cookie Hget.
    pose proof (createRemixHeaders_wf requestHeaders None) as [_ Hne].
    fold without in Hne. unfold get, get_all in *.
    destruct (find without (js "Cookie")) as [key|] eqn:Hf; [|done].
    injection Hget as <-.
    destruct (find (append (js "Cookie") joined without) (js "Cookie"))
      as [key'|] eqn:Hf'.
    + rewrite Hall. f_equal. apply join_snoc.
      apply find_Some in Hf as [Hin _]. by apply values_of_nonempty.
    + unfold append in Hf'. rewrite Hf in Hf'.
      rewrite (find_keys _ without) in Hf' by apply update_keys. congruence.
Qed.

(** X5. An event with no usable host is resolved against
    [https://undefined]: when the [x-forwarded-host] header is missing or
    empty and there is no [host] header, a request that is constructed has
    the URL that [URL] makes of the path and query against that base, and
    when [URL] refuses them its error is raised out of
    [createRemixRequest]. *)
Theorem createRemixRequest_no_host
    (event : Event.t) (abortController : option AbortController) :
  truthy (header_property (Event.headers event) (js "x-forwarded-host")) = false →
  header_property (Event.headers event) (js "host") = None →
  (∀ request,
     createRemixRequest event abortController = Ok request →
     URL_href (request_target event) (js "https://undefined")
     = Ok (Request.url request))
  ∧ (∀ e,
       URL_href (request_target event) (js "https://undefined") = Throw e →
       createRemixRequest event abortController = Throw e).
Proof.
  intros Hforwarded Hhost. unfold createRemixRequest, request_host, or_else.
  rewrite Hforwarded, Hhost. simpl.
  destruct (URL_href _ _) as [href|e]; simpl; split.
  - by intros request [= <-].
  - done.
  - done.
  - by intros e' [= <-].
Qed.

End AdapterMore.

(** ** More on base64 *)

Module Base64More.
Import Base64.

Lemma elem_of_rev (l : list N) x : x ∈ rev l ↔ x ∈ l.
Proof. rewrite !list_elem_of_In. symmetry. apply in_rev. Qed.

Lemma strip_padding_keeps d c : c ∈ d → c ≠ pad → c ∈ strip_padding d.
Proof.
  intros Hin Hc. unfold strip_padding.
  assert (c ∈ rev d) as Hrev by by apply elem_of_rev.
  destruct (rev d) as [|p1 [|p2 r]] eqn:E; [done| |].
  - destruct (N.eqb_spec p1 pad) as [->|]; [|done].
    by apply list_elem_of_singleton in Hrev.
  - destruct (N.eqb_spec p1 pad) as [->|]; [|done].
    apply elem_of_cons in Hrev as [?|Hrev]; [done|].
    destruct (N.eqb_spec p2 pad) as [->|].
    + apply elem_of_cons in Hrev as [?|Hrev]; [done|]. by apply elem_of_rev.
    + by apply elem_of_rev.
Qed.

(** A character that is neither white space, nor padding, nor of the
    alphabet makes the decoding fail. *)
Lemma forgiving_decode_invalid s c :
  c ∈ s → is_ascii_whitespace c = false → c ≠ pad → b64_index c = None →
  forgiving_decode s = None.
Proof.
  intros Hin Hws Hpad Hindex. unfold forgiving_decode.
  set (d := filter _ s).
  assert (c ∈ d) as Hd by by apply list_elem_of_filter.
  set (d' := if (length d mod 4 =? 0)%nat then strip_padding d else d).
  assert (c ∈ d') as Hd'.
  { subst d'. destruct (_ =? _)%nat; [by apply strip_padding_keeps | done]. }
  destruct (_ =? 1)%nat; [done|].
  destruct (mapM b64_index d') as [sx|] eqn:Hm; [|done].
  assert (is_Some (mapM b64_index d')) as Hs by eauto.
  apply mapM_is_Some in Hs. eapply Forall_forall in Hs; [|exact Hd'].
  simpl in Hs. rewrite Hindex in Hs. by destruct Hs.
Qed.

End Base64More.

(** ** More on the cookie codec *)

Section CookieMore.
Context `{Runtime}.
Context (sign : SignFunction) (unsign : UnsignFunction).
Context (name : jsstring) (cookieOptions : options).

(** X7. [parse] of an unsigned cookie never rejects: whatever the header
    holds, and whatever the name of the cookie, it resolves, a failure of
    [atob] or of [JSON.parse] being caught in [decodeData]. *)
Theorem parse_unsigned_never_raises
    (cookieHeader : option jsstring) (parseOptions : options) :
  secrets_of cookieOptions = [] →
  ∃ value,
    parse (createCookieFactory sign unsign name cookieOptions)
          cookieHeader parseOptions = Ok value.
Proof.
  intros Hs. simpl. rewrite Hs.
  destruct cookieHeader as [[|c cookieHeader]|]; eauto.
  destruct (cookie_parse _ _ !! name) as [[|r raw]|]; eauto.
  destruct (Object_prototype !! name); eauto.
Qed.

Lemma with_defaults_lookup (k : string) :
  with_defaults cookieOptions !! k
  = match cookieOptions !! k with
    | Some v => Some v
    | None =>
        if decide (k = "secrets"%string) then Some (OStrings [])
        else if decide (k = "path"%string) then Some (OString (js "/"))
        else None
    end.
Proof.
  unfold with_defaults, spread. rewrite lookup_union.
  destruct (cookieOptions !! k) as [v|]; simpl.
  - by destruct (_ !! k).
  - rewrite left_id_L by apply _.
    destruct (decide (k = "secrets"%string)) as [->|Hs]; [done|].
    rewrite lookup_insert_ne by done.
    destruct (decide (k = "path"%string)) as [->|Hp].
    + apply lookup_singleton_eq.
    + by apply lookup_singleton_ne.
Qed.

Lemma options_of_lookup (k : string) :
  k ≠ "secrets"%string →
  options_of cookieOptions !! k
  = match cookieOptions !! k with
    | Some v => Some v
    | None => if decide (k = "path"%string) then Some (OString (js "/")) else None
    end.
Proof.
  intros Hk. unfold options_of. rewrite lookup_delete_ne by done.
  rewrite with_defaults_lookup. by rewrite decide_False.
Qed.

(** X10. The options [serialize] hands to [cookie.serialize] are, property
    by property, those of the call, else those of the cookie, else the
    default path ["/"]; the secrets of the cookie are not among them. *)
Theorem serialize_options (serializeOptions : options) (k : string) :
  let options := spread (options_of cookieOptions) serializeOptions in
  (∀ value,
     serialize (createCookieFactory sign unsign name cookieOptions)
               value serializeOptions
     = (let! encoded :=
          if is_empty_string value then Ok []
          else encodeCookieValue sign value (secrets_of cookieOptions) in
        cookie_serialize name encoded options))
  ∧ options !! "secrets"%string = serializeOptions !! "secrets"%string
  ∧ (k ≠ "secrets"%string →
     options !! k
     = match serializeOptions !! k with
       | Some v => Some v
       | None =>
           match cookieOptions !! k with
           | Some v => Some v
           | None =>
               if decide (k = "path"%string) then Some (OString (js "/"))
               else None
           end
       end).
Proof.
  intros options. subst options. unfold spread. split_and!.
  - done.
  - rewrite lookup_union. unfold options_of. rewrite lookup_delete_eq.
    by destruct (serializeOptions !! "secrets"%string).
  - intros Hk. rewrite lookup_union, options_of_lookup by done.
    destruct (serializeOptions !! k); simpl; [|by rewrite left_id_L by apply _].
    by destruct (cookieOptions !! k); [|destruct (decide _)].
Qed.

(** X15. [isSigned] is true exactly when the options of the cookie hold a
    non-empty list of secrets; it is false for a cookie made without
    options. *)
Theorem isSigned_secrets :
  isSigned (createCookieFactory sign unsign name cookieOptions) = true
  ↔ ∃ first rest,
      cookieOptions !! "secrets"%string = Some (OStrings (first :: rest)).
Proof.
  rewrite isSigned_iff. unfold secrets_of. rewrite with_defaults_lookup.
  destruct (cookieOptions !! "secrets"%string) as [[| | |[|first rest]]|];
    simpl; split; try done; try (by intros (? & ? & ?)).
  intros _. by exists first, rest.
Qed.

(** X13. Rotation of secrets, end to end.  A header serialized by a cookie
    whose only secret is [S] is parsed, after [S2] was put in front of [S],
    to the value it was made from; a header serialized after the rotation,
    hence signed with [S2], is parsed to [null] by the cookie that only
    knows [S].  The contracts assumed are those of the round trip, and that
    a signature does not verify under the other secret. *)
Theorem rotation_roundtrip
    (S S2 : jsstring) (value : any) (serializeOptions parseOptions : options)
    (encoded header header2 : jsstring) :
  let old :=
    createCookieFactory sign unsign name
      (<["secrets"%string := OStrings [S]]> cookieOptions) in
  let rotated :=
    createCookieFactory sign unsign name
      (<["secrets"%string := OStrings [S2; S]]> cookieOptions) in
  let options := options_of cookieOptions in
  is_empty_string value = false →
  btoa (JSON_stringify value) = Ok encoded →
  atob encoded = Ok (JSON_stringify value) →
  JSON_parse (JSON_stringify value) = Ok value →
  (unsign (sign encoded S) S = Some encoded →
   unsign (sign encoded S) S2 = None →
   sign encoded S ≠ [] →
   cookie_serialize name (sign encoded S) (spread options serializeOptions)
     = Ok header →
   header ≠ [] →
   cookie_parse header (spread options parseOptions) !! name
     = Some (sign encoded S) →
   serialize old value serializeOptions = Ok header
   ∧ parse rotated (Some header) parseOptions = Ok value)
  ∧ (unsign (sign encoded S2) S = None →
     sign encoded S2 ≠ [] →
     cookie_serialize name (sign encoded S2) (spread options serializeOptions)
       = Ok header2 →
     header2 ≠ [] →
     cookie_parse header2 (spread options parseOptions) !! name
       = Some (sign encoded S2) →
     serialize rotated value serializeOptions = Ok header2
     ∧ parse old (Some header2) parseOptions = Ok VNull).
Proof.
  intros old rotated options Hv Hbtoa Hatob Hjson. subst old rotated options.
  assert (decodeData encoded = value) as Hdec.
  { unfold decodeData. rewrite Hatob. simpl. by rewrite Hjson. }
  split.
  - intros HS HS2 Hne Hser Hh Hpar. split.
    + rewrite serialize_value, Hbtoa by done. simpl.
      by rewrite secrets_of_insert, options_of_insert.
    + rewrite (parse_present _ _ _ _ _ _ (sign encoded S));
        rewrite ?options_of_insert; try done.
      rewrite secrets_of_insert, decodeCookieValue_signed by done.
      unfold first_verified. simpl. rewrite HS2, HS. simpl. by rewrite Hdec.
  - intros HS Hne Hser Hh Hpar. split.
    + rewrite serialize_value, Hbtoa by done. simpl.
      by rewrite secrets_of_insert, options_of_insert.
    + rewrite (parse_present _ _ _ _ _ _ (sign encoded S2));
        rewrite ?options_of_insert; try done.
      rewrite secrets_of_insert, decodeCookieValue_signed by done.
      unfold first_verified. simpl. by rewrite HS.
Qed.

End CookieMore.

(** X11. With the WHATWG [btoa] and [atob], [decodeData] inverts
    [encodeData]: whenever [encodeData] returns an encoding of a value that
    [JSON.parse] reads back from its JSON text, [decodeData] of the encoding
    is the value. *)
Theorem decodeData_encodeData (R : Runtime) (value : any) (encoded : jsstring) :
  @encodeData (with_whatwg_base64 R) value = Ok encoded →
  JSON_parse (JSON_stringify value) = Ok value →
  @decodeData (with_whatwg_base64 R) encoded = value.
Proof.
  unfold encodeData, decodeData. simpl. intros Henc Hjson.
  rewrite (Base64Facts.atob_btoa _ _ Henc). simpl. by rewrite Hjson.
Qed.

(** X14. With the WHATWG [atob], [decodeData] of a string that holds a
    character outside the base64 alphabet, other than white space and
    [=], is the empty object: so is, for an unsigned cookie, every value
    that carries a signature after a dot. *)
Theorem decodeData_invalid_base64 (R : Runtime) (value : jsstring) (c : N) :
  c ∈ value →
  Base64.is_ascii_whitespace c = false → c ≠ Base64.pad →
  Base64.b64_index c = None →
  @decodeData (with_whatwg_base64 R) value = VObject [].
Proof.
  intros Hin Hws Hpad Hindex. unfold decodeData. simpl. unfold Base64.atob.
  by rewrite (Base64More.forgiving_decode_invalid value c).
Qed.

(** ** The order of the secrets *)

Section SecretOrder.
Context `{Runtime}.
Context (sign : SignFunction) (unsign : UnsignFunction).

(** The first verified decoding is the decoding under any secret that
    verifies, when the secrets that verify agree. *)
Lemma first_verified_any value secrets secret data :
  (∀ s s' u u', s ∈ secrets → s' ∈ secrets →
                unsign value s = Some u → unsign value s' = Some u' → u = u') →
  secret ∈ secrets → unsign value secret = Some data →
  first_verified unsign value secrets = decodeData data.
Proof.
  unfold first_verified. intros Hagree Hin Hdata.
  induction secrets as [|s0 secrets IH]; [by apply elem_of_nil in Hin|].
  simpl. destruct (unsign value s0) as [u0|] eqn:H0; simpl.
  - f_equal. apply (Hagree s0 secret u0 data); [by left | done | done | done].
  - apply elem_of_cons in Hin as [->|Hin]; [congruence|].
    apply IH; [|done]. intros s s' u u' ? ?. apply Hagree; by right.
Qed.

Lemma first_verified_none value secrets :
  (∀ s, s ∈ secrets → unsign value s = None) →
  first_verified unsign value secrets = VNull.
Proof.
  unfold first_verified. induction secrets as [|s0 secrets IH]; [done|].
  intros Hnone. simpl. rewrite Hnone by left. simpl.
  apply IH. intros s ?. apply Hnone. by right.
Qed.

Lemma first_verified_Permutation value secrets secrets' :
  (∀ s s' u u', s ∈ secrets → s' ∈ secrets →
                unsign value s = Some u → unsign value s' = Some u' → u = u') →
  secrets ≡ₚ secrets' →
  first_verified unsign value secrets = first_verified unsign value secrets'.
Proof.
  intros Hagree Hperm.
  destruct (decide (Exists (λ s, is_Some (unsign value s)) secrets))
    as [Hex|Hno].
  - apply Exists_exists in Hex as (s & Hin & [data Hdata]).
    rewrite (first_verified_any value secrets s data) by done.
    symmetry. apply (first_verified_any value secrets' s data).
    + intros s1 s2 u u' H1 H2. apply Hagree; by rewrite Hperm.
    + by rewrite <- Hperm.
    + done.
  - assert (∀ s, s ∈ secrets → unsign value s = None) as Hnone.
    { intros s Hin. destruct (unsign value s) eqn:E; [|done].
      exfalso. apply Hno, Exists_exists. exists s. split; [done|].
      rewrite E. eauto. }
    rewrite first_verified_none by done. symmetry.
    apply first_verified_none. intros s Hin. apply Hnone. by rewrite Hperm.
Qed.

(** X17. [parse] does not depend on the order of the secrets, as long as
    the secrets that verify a value agree on the data it was signed from:
    two cookies that differ only in the order of their secrets parse every
    header to the same value.  (The order matters to [serialize] alone,
    which signs with the first.) *)
Theorem parse_secret_order
    (name : jsstring) (cookieOptions : options)
    (secrets secrets' : list jsstring)
    (cookieHeader : option jsstring) (parseOptions : options) :
  secrets ≡ₚ secrets' →
  (∀ value s s' u u', s ∈ secrets → s' ∈ secrets →
                      unsign value s = Some u → unsign value s' = Some u' →
                      u = u') →
  parse (createCookieFactory sign unsign name
           (<["secrets"%string := OStrings secrets]> cookieOptions))
        cookieHeader parseOptions
  = parse (createCookieFactory sign unsign name
             (<["secrets"%string := OStrings secrets']> cookieOptions))
          cookieHeader parseOptions.
Proof.
  intros Hperm Hagree. simpl.
  rewrite !secrets_of_insert, !options_of_insert.
  destruct cookieHeader as [[|c cookieHeader]|]; [done| |done].
  destruct (cookie_parse _ _ !! name) as [[|r raw]|]; [done| |].
  2: { destruct (Object_prototype !! name) as [text|]; [|done].
       unfold decodeInheritedValue.
       by rewrite (Permutation_length Hperm). }
  destruct secrets as [|s0 secrets].
  - apply Permutation_nil_l in Hperm. by subst.
  - destruct secrets' as [|s0' secrets'].
    { by apply Permutation_nil_r in Hperm. }
    rewrite !decodeCookieValue_signed by done. f_equal.
    apply first_verified_Permutation; [apply Hagree | done].
Qed.

End SecretOrder.

(** ** The further properties at sample inputs *)

Lemma sendRemixResponse_headers_witness :
  GatewayResult.headers
    (@sendRemixResponse Reference.runtime MoreSamples.keep_alive_response
                        {| aborted := false |})
    !! js "connection" = Some (js "keep-alive").
Proof.
  pose proof (@sendRemixResponse_headers Reference.runtime
                MoreSamples.keep_alive_response {| aborted := false |}
                (js "Connection")) as W.
  cbv zeta in W. destruct W as [W _].
  - repeat apply HeadersFacts.wf_append. apply HeadersFacts.wf_empty.
  - vm_compute. discriminate.
  - discriminate.
  - change (js "connection") with (Headers.toLowerCase (js "Connection")).
    rewrite W. vm_compute. reflexivity.
Defined.

Lemma sendRemixResponse_aborted_witness :
  GatewayResult.headers
    (@sendRemixResponse Reference.runtime MoreSamples.keep_alive_response
                        {| aborted := true |})
    !! js "connection" = Some (js "close").
Proof.
  apply (@sendRemixResponse_aborted Reference.runtime
           MoreSamples.keep_alive_response {| aborted := true |}).
  - repeat apply HeadersFacts.wf_append. apply HeadersFacts.wf_empty.
  - reflexivity.
Defined.

Lemma createRemixHeaders_copies_witness :
  Headers.get (js "host")
    (createRemixHeaders MoreSamples.cookie_event_headers
                        (Some MoreSamples.cookie_strings))
  = Some (js "x.test")
  ∧ Headers.get (js "x-empty")
      (createRemixHeaders MoreSamples.cookie_event_headers
                          (Some MoreSamples.cookie_strings))
    = None.
Proof.
  assert (NoDup (map (λ entry : jsstring * option jsstring,
                        Headers.toLowerCase entry.1)
                     MoreSamples.cookie_event_headers)) as Hnd.
  { apply (bool_decide_unpack _). vm_compute. exact I. }
  split.
  - apply (createRemixHeaders_copies MoreSamples.cookie_event_headers
             (Some MoreSamples.cookie_strings) (js "host")
             (Some (js "x.test"))).
    + vm_compute. reflexivity.
    + vm_compute. reflexivity.
    + exact Hnd.
    + apply (bool_decide_unpack _). vm_compute. exact I.
    + vm_compute. discriminate.
  - apply (createRemixHeaders_copies MoreSamples.cookie_event_headers
             (Some MoreSamples.cookie_strings) (js "x-empty")
             (Some [])).
    + vm_compute. reflexivity.
    + vm_compute. reflexivity.
    + exact Hnd.
    + apply (bool_decide_unpack _). vm_compute. exact I.
    + vm_compute. discriminate.
Defined.

Lemma createRemixHeaders_cookies_witness :
  Headers.get (js "Cookie")
    (createRemixHeaders MoreSamples.cookie_event_headers
                        (Some MoreSamples.cookie_strings))
  = Some (js "a=1, b=2; c=3").
Proof.
  assert (appends_accepted MoreSamples.cookie_event_headers
            (Some MoreSamples.cookie_strings) = true) as Haccepted
    by (vm_compute; reflexivity).
  pose proof (createRemixHeaders_cookies MoreSamples.cookie_event_headers
                MoreSamples.cookie_strings Haccepted) as W.
  cbv zeta in W. destruct W as (_ & _ & W).
  rewrite (W (js "a=1")); vm_compute; reflexivity.
Defined.

Lemma createRemixRequest_no_host_witness :
  ∃ request,
    @createRemixRequest Reference.runtime MoreSamples.hostless_event None
    = Ok request
    ∧ @URL_href Reference.runtime
        (request_target MoreSamples.hostless_event) (js "https://undefined")
      = Ok (Request.url request)
    ∧ Request.url request = js "https://undefined/foo".
Proof.
  destruct (@createRemixRequest_no_host Reference.runtime
              MoreSamples.hostless_event None eq_refl eq_refl) as [W _].
  eexists. split; [vm_compute; reflexivity|]. split.
  - apply W. vm_compute. reflexivity.
  - vm_compute. reflexivity.
Defined.

Lemma parse_unsigned_never_raises_witness :
  ∃ value,
    parse Samples.unsigned_cookie (Some (js "sid=%%%")) ∅ = Ok value.
Proof.
  apply (@parse_unsigned_never_raises Reference.runtime Reference.sign
           Reference.unsign (js "sid") ∅ (Some (js "sid=%%%")) ∅).
  vm_compute. reflexivity.
Defined.

Lemma decodeData_encodeData_witness :
  @decodeData (with_whatwg_base64 Reference.runtime) Samples.encoded
  = Samples.value.
Proof.
  apply (decodeData_encodeData Reference.runtime Samples.value Samples.encoded).
  - vm_compute. reflexivity.
  - vm_compute. reflexivity.
Defined.

Lemma rotation_roundtrip_witness :
  let sid := @createCookieFactory Reference.runtime
               Reference.sign Reference.unsign (js "sid") in
  (serialize (sid Samples.old_options) Samples.value ∅
     = Ok Samples.signed_header
   ∧ parse (sid Samples.rotated_options) (Some Samples.signed_header) ∅
     = Ok Samples.value)
  ∧ (serialize (sid Samples.rotated_options) Samples.value ∅
       = Ok MoreSamples.rotated_header
     ∧ parse (sid Samples.old_options) (Some MoreSamples.rotated_header) ∅
       = Ok VNull).
Proof.
  intros sid. subst sid.
  pose proof (@rotation_roundtrip Reference.runtime Reference.sign
                Reference.unsign (js "sid") ∅ (js "s3cr3t") (js "new")
                Samples.value ∅ ∅ Samples.encoded
                Samples.signed_header MoreSamples.rotated_header) as W.
  cbv zeta in W. destruct W as [W1 W2].
  - reflexivity.
  - vm_compute. reflexivity.
  - vm_compute. reflexivity.
  - vm_compute. reflexivity.
  - split.
    + apply W1; [vm_compute; reflexivity | vm_compute; reflexivity
                 | vm_compute; discriminate | vm_compute; reflexivity
                 | discriminate | vm_compute; reflexivity].
    + apply W2; [vm_compute; reflexivity | vm_compute; discriminate
                 | vm_compute; reflexivity | discriminate
                 | vm_compute; reflexivity].
Defined.

Lemma decodeData_invalid_base64_witness :
  @decodeData (with_whatwg_base64 Reference.runtime) Samples.signed
  = VObject [].
Proof.
  apply (decodeData_invalid_base64 Reference.runtime Samples.signed 46).
  - apply (bool_decide_unpack _). vm_compute. exact I.
  - reflexivity.
  - discriminate.
  - reflexivity.
Defined.

Lemma serialize_empty_string_witness :
  let cookie :=
    @createCookieFactory Reference.runtime Reference.sign Reference.unsign
      (js "sid") Samples.old_options in
  serialize cookie (VString []) ∅ = Ok (js "sid=; Path=/")
  ∧ parse cookie (Some (js "sid=; Path=/")) ∅ = Ok (VString []).
Proof.
  apply (@serialize_empty_string Reference.runtime Reference.sign
           Reference.unsign (js "sid") Samples.old_options ∅ ∅
           (js "sid=; Path=/")).
  - vm_compute. reflexivity.
  - discriminate.
  - vm_compute. reflexivity.
Defined.

Lemma parse_secret_order_witness :
  parse (@createCookieFactory Reference.runtime Reference.sign
           Reference.unsign (js "sid")
           (<["secrets"%string := OStrings [js "new"; js "s3cr3t"]]> ∅))
        (Some Samples.signed_header) ∅
  = parse (@createCookieFactory Reference.runtime Reference.sign
             Reference.unsign (js "sid")
             (<["secrets"%string := OStrings [js "s3cr3t"; js "new"]]> ∅))
          (Some Samples.signed_header) ∅.
Proof.
  apply (@parse_secret_order Reference.runtime Reference.sign Reference.unsign
           (js "sid") ∅ [js "new"; js "s3cr3t"] [js "s3cr3t"; js "new"]
           (Some Samples.signed_header) ∅).
  - apply perm_swap.
  - intros value s s' u u' _ _. unfold Reference.unsign.
    destruct (decide _); [|done]. destruct (decide _); [|done]. congruence.
Defined.

(** ** The reference runtime at work *)

Example json_roundtrip_example :
  let v := VObject [(js "user", VString (js "ann")); (js "n", VNumber (-12)%Z);
                    (js "tags", VArray [VBool true; VNull; VString [34; 10; 233]])] in
  Reference.JSON_parse (Reference.JSON_stringify v) = Ok v.
Proof. vm_compute. reflexivity. Qed.

Example json_stringify_example :
  Reference.JSON_stringify (VObject [(js "a", VArray [VNumber 1; VNumber 20]); (js "b", VString [34])])
  = js "{" ++ [34] ++ js "a" ++ [34] ++ js ":[1,20]," ++ [34] ++ js "b" ++ [34] ++ js ":" ++ [34;92;34;34] ++ js "}".
Proof. vm_compute. reflexivity. Qed.

Example cookie_serialize_example :
  Reference.cookie_serialize (js "sid") (js "a b=c") {[ "path"%string := OString (js "/"); "httpOnly"%string := OBool true ]}
  = Ok (js "sid=a%20b%3Dc; Path=/; HttpOnly").
Proof. vm_compute. reflexivity. Qed.

Example cookie_parse_example :
  Reference.cookie_parse (js "sid=a%20b%3Dc; Path=/; x = 1 ;sid=2") ∅ !! js "sid" = Some (js "a b=c")
  /\ Reference.cookie_parse (js "sid=a%20b%3Dc; Path=/; x = 1 ;sid=2") ∅ !! js "x" = Some (js "1").
Proof. vm_compute. split; reflexivity. Qed.

Example url_example :
  Reference.URL_href (js "/foo?a=1") (js "https://x.test") = Ok (js "https://x.test/foo?a=1").
Proof. vm_compute. reflexivity. Qed.
